(** * build_image.py: artifact resolution and provisioning pipeline

    A shallow embedding of [src/build_image.py].  Python strings are
    [string]s of 8-bit characters, the file system is a finite map from
    paths to nodes, and effectful code runs in a small state-and-exception
    monad whose state carries the file system and the trace of observable
    events (printed lines, HTTP requests, started processes). *)

From Stdlib Require Import ZArith List String Ascii Bool Lia Permutation Sorted.
From Stdlib Require Import DecimalString.
From stdpp Require Import base strings gmap.

Import ListNotations.
Local Open Scope string_scope.
Local Open Scope list_scope.

(** ** Strings *)

Module Str.

(** [s[i:]] *)
Fixpoint drop (i : nat) (s : string) : string :=
  match i, s with
  | O, _ => s
  | S i', String _ s' => drop i' s'
  | S _, EmptyString => EmptyString
  end.

(** [s[i:j]] for [i <= j] *)
Definition slice (i j : nat) (s : string) : string :=
  String.substring i (j - i) s.

(** [s.isascii()] *)
Fixpoint isascii (s : string) : bool :=
  match s with
  | EmptyString => true
  | String c s' => (nat_of_ascii c <? 128)%nat && isascii s'
  end.

(** [s.lower()] for a string with [s.isascii()]: the letters A to Z are
    mapped.  The case mapping of the characters outside ASCII is not
    embedded, they are left as they are; what is proved of a lower-cased
    text is stated for ASCII texts. *)
Definition lower_char (c : ascii) : ascii :=
  let n := nat_of_ascii c in
  if (65 <=? n)%nat && (n <=? 90)%nat then ascii_of_nat (n + 32) else c.

Fixpoint lower (s : string) : string :=
  match s with
  | EmptyString => EmptyString
  | String c s' => String (lower_char c) (lower s')
  end.

(** [s.split(sep)[-1]]: the text after the last occurrence of the
    one-character separator, the whole string when there is none. *)
Fixpoint last_segment_from (sep : ascii) (s acc : string) : string :=
  match s with
  | EmptyString => acc
  | String c s' =>
      if Ascii.eqb c sep then last_segment_from sep s' EmptyString
      else last_segment_from sep s' (acc +:+ String c EmptyString)
  end.

Definition last_segment (sep : ascii) (s : string) : string :=
  last_segment_from sep s EmptyString.

(** [t in s] for Python strings, as a proposition. *)
Definition within (t s : string) : Prop :=
  exists a b, s = a +:+ t +:+ b.

(** [t in s], executable. *)
Fixpoint contains (t s : string) : bool :=
  String.prefix t s ||
  match s with
  | EmptyString => false
  | String _ s' => contains t s'
  end.

(** [str(n)] for a Python int. *)
Definition of_Z (z : Z) : string := NilZero.string_of_int (Z.to_int z).

End Str.

(** ** Regular expressions

    The patterns of the source are compiled by Python's [re]; the model is
    the backtracking matcher on the compiled form.  Every quantifier of the
    source's patterns ([[0-9]+], [.*], [.*?]) ranges over a one-character
    set, so repetition is kept to that shape. *)

Module Re.

Inductive charset :=
| CsChar (c : ascii)        (* a literal character, also an escaped one *)
| CsRange (lo hi : ascii)   (* [lo-hi] *)
| CsDot                     (* [.]: anything but a newline *)
| CsAny.                    (* [.] compiled under re.S *)

Definition newline : ascii := "010"%char.

Definition cs_mem (cs : charset) (c : ascii) : bool :=
  match cs with
  | CsChar d => Ascii.eqb c d
  | CsRange lo hi =>
      (nat_of_ascii lo <=? nat_of_ascii c)%nat
      && (nat_of_ascii c <=? nat_of_ascii hi)%nat
  | CsDot => negb (Ascii.eqb c newline)
  | CsAny => true
  end.

Inductive regex :=
| Eps
| One (cs : charset)
| Rep (cs : charset) (lo : nat) (greedy : bool)  (* cs{lo,} or cs{lo,}? *)
| Cat (r1 r2 : regex)
| Alt (r1 r2 : regex)
| Grp (n : nat) (r : regex)                      (* capturing group n *)
| Bol                                            (* ^ *)
| Eol.                                           (* $ *)

(** [re.compile(p, re.S)]: the dot also matches a newline. *)
Definition dotall_cs (cs : charset) : charset :=
  match cs with
  | CsDot => CsAny
  | _ => cs
  end.

Fixpoint dotall (r : regex) : regex :=
  match r with
  | One cs => One (dotall_cs cs)
  | Rep cs lo greedy => Rep (dotall_cs cs) lo greedy
  | Cat r1 r2 => Cat (dotall r1) (dotall r2)
  | Alt r1 r2 => Alt (dotall r1) (dotall r2)
  | Grp n r1 => Grp n (dotall r1)
  | _ => r
  end.

(** A literal string inside a pattern. *)
Fixpoint lit (s : string) : regex :=
  match s with
  | EmptyString => Eps
  | String c s' => Cat (One (CsChar c)) (lit s')
  end.

(** Spans of the capturing groups, most recent first. *)
Definition caps := list (nat * (nat * nat)).

(** [$] without re.M: at the end, or before a newline that ends the
    string. *)
Definition at_end (s : string) : bool :=
  match s with
  | EmptyString => true
  | String c EmptyString => Ascii.eqb c newline
  | _ => false
  end.

Section Matcher.
Context {R : Type}.

(** [cs{lo,}]: take as many characters as possible, give back one at
    a time. *)
Fixpoint rep_greedy (cs : charset) (lo : nat) (s : string) (pos : nat)
    (k : string -> nat -> option R) : option R :=
  match s with
  | String c s' =>
      if cs_mem cs c then
        match rep_greedy cs (Nat.pred lo) s' (S pos) k with
        | Some x => Some x
        | None => if (lo =? 0)%nat then k s pos else None
        end
      else if (lo =? 0)%nat then k s pos else None
  | EmptyString => if (lo =? 0)%nat then k s pos else None
  end.

(** [cs{lo,}?]: take as few characters as possible. *)
Fixpoint rep_lazy (cs : charset) (lo : nat) (s : string) (pos : nat)
    (k : string -> nat -> option R) : option R :=
  let more :=
    match s with
    | String c s' =>
        if cs_mem cs c then rep_lazy cs (Nat.pred lo) s' (S pos) k
        else None
    | EmptyString => None
    end in
  if (lo =? 0)%nat then
    match k s pos with
    | Some x => Some x
    | None => more
    end
  else more.

(** [matchk r s pos g k]: match [r] against [s], the rest of the
    subject from index [pos], then hand the remainder to [k];
    [None] makes the matcher backtrack. *)
Fixpoint matchk (r : regex) (s : string) (pos : nat) (g : caps)
    (k : string -> nat -> caps -> option R) : option R :=
  match r with
  | Eps => k s pos g
  | One cs =>
      match s with
      | String c s' => if cs_mem cs c then k s' (S pos) g else None
      | EmptyString => None
      end
  | Rep cs lo greedy =>
      (if greedy then rep_greedy else rep_lazy) cs lo s pos
        (fun s' p' => k s' p' g)
  | Cat r1 r2 =>
      matchk r1 s pos g (fun s' p' g' => matchk r2 s' p' g' k)
  | Alt r1 r2 =>
      match matchk r1 s pos g k with
      | Some x => Some x
      | None => matchk r2 s pos g k
      end
  | Grp n r1 =>
      matchk r1 s pos g (fun s' p' g' => k s' p' ((n, (pos, p')) :: g'))
  | Bol => if (pos =? 0)%nat then k s pos g else None
  | Eol => if at_end s then k s pos g else None
  end.
End Matcher.

(** A match: where it ends and what the groups captured. *)
Definition found : Type := nat * caps.

(** One attempt of the engine at index [pos], [s] being the subject
    from there on.  With [must_advance] an empty match is refused. *)
Definition attempt (must_advance : bool) (r : regex) (s : string)
    (pos : nat) : option found :=
  matchk r s pos []
    (fun _ e g =>
       if must_advance && (e =? pos)%nat then None else Some (e, g)).

(** The pattern matches the subject [s] at index [i]. *)
Definition match_at (r : regex) (s : string) (i : nat) : option found :=
  attempt false r (Str.drop i s) i.

(** [re.match(r, s)]: only at the beginning of the string. *)
Definition re_match (r : regex) (s : string) : option found :=
  attempt false r s 0.

(** [re.search(r, s)]: the first index at which the pattern matches,
    with the match found there. *)
Fixpoint search_from (r : regex) (s : string) (pos : nat)
    : option (nat * found) :=
  match attempt false r s pos with
  | Some m => Some (pos, m)
  | None =>
      match s with
      | String _ s' => search_from r s' (S pos)
      | EmptyString => None
      end
  end.

Definition re_search (r : regex) (s : string) : option (nat * found) :=
  search_from r s 0.

(** [m.group(0)] *)
Definition group0 (s : string) (m : nat * found) : string :=
  Str.slice (fst m) (fst (snd m)) s.

(** [m.group(n)], the empty string for a group that took no part. *)
Fixpoint span_of (n : nat) (g : caps) : option (nat * nat) :=
  match g with
  | [] => None
  | (n', sp) :: g' => if (n' =? n)%nat then Some sp else span_of n g'
  end.

Definition group (n : nat) (s : string) (m : nat * found) : string :=
  match span_of n (snd (snd m)) with
  | Some (b, e) => Str.slice b e s
  | None => EmptyString
  end.

(** Number of capturing groups of a pattern. *)
Fixpoint groups (r : regex) : nat :=
  match r with
  | Cat r1 r2 | Alt r1 r2 => groups r1 + groups r2
  | Grp _ r1 => S (groups r1)
  | _ => 0
  end.

(** What [re.findall] reports for one match: the whole match for a
    pattern without groups, group 1 for a pattern with one group (the
    source has no pattern with more). *)
Definition item (r : regex) (s : string) (m : nat * found) : string :=
  match groups r with
  | O => group0 s m
  | _ => group 1 s m
  end.

(** [re.findall(r, s)]: the matches from left to right, none
    overlapping.  [rest] is the subject from [pos] on, [skip] the number
    of characters still covered by the previous match.  After an empty
    match the engine retries the same index once, refusing an empty
    match there. *)
Fixpoint findall_from (r : regex) (s rest : string) (pos skip : nat)
    : list string :=
  let next (sk : nat) : list string :=
    match rest with
    | String _ rest' => findall_from r s rest' (S pos) sk
    | EmptyString => []
    end in
  match skip with
  | S sk => next sk
  | O =>
      match attempt false r rest pos with
      | None => next 0%nat
      | Some (e, g) =>
          if (e =? pos)%nat then
            item r s (pos, (e, g)) ::
            match attempt true r rest pos with
            | None => next 0%nat
            | Some (e', g') =>
                item r s (pos, (e', g')) :: next (e' - pos - 1)%nat
            end
          else item r s (pos, (e, g)) :: next (e - pos - 1)%nat
      end
  end.

Definition findall (r : regex) (s : string) : list string :=
  findall_from r s s 0 0.

End Re.

(** ** The patterns of the source *)

Module Patterns.
Import Re.

Definition digit : charset := CsRange "0" "9".
Definition dquote : string := String "034"%char EmptyString.

(** [r"(([0-9]+\.[0-9]+\.[0-9]+)|([0-9]+\.[0-9]+)|([0-9]+T))"] *)
Definition major_minor_patch : regex :=
  Cat (Rep digit 1 true) (Cat (One (CsChar "."))
    (Cat (Rep digit 1 true) (Cat (One (CsChar ".")) (Rep digit 1 true)))).
Definition major_minor : regex :=
  Cat (Rep digit 1 true) (Cat (One (CsChar ".")) (Rep digit 1 true)).
Definition date_T : regex :=
  Cat (Rep digit 1 true) (One (CsChar "T")).
Definition version_re : regex :=
  Grp 1 (Alt (Grp 2 major_minor_patch)
          (Alt (Grp 3 major_minor) (Grp 4 date_T))).

(** [r"^https://"] *)
Definition https_re : regex := Cat Bol (lit "https://").

(** ['archlinux-[0-9]+.[0-9]+.[0-9]+-.*.iso$'] *)
Definition archlinux_filter : regex :=
  Cat (lit "archlinux-")
    (Cat (Rep digit 1 true) (Cat (One CsDot)
      (Cat (Rep digit 1 true) (Cat (One CsDot)
        (Cat (Rep digit 1 true) (Cat (One (CsChar "-"))
          (Cat (Rep CsDot 0 true) (Cat (One CsDot)
            (Cat (lit "iso") Eol))))))))).

(** ['.*/(manjaro-xfce-.*.iso)$'] *)
Definition manjaro_filter : regex :=
  Cat (Rep CsDot 0 true) (Cat (One (CsChar "/"))
    (Cat (Grp 1 (Cat (lit "manjaro-xfce-")
                  (Cat (Rep CsDot 0 true) (Cat (One CsDot) (lit "iso")))))
         Eol)).

(** ['href=\"(.*?)\"'] *)
Definition archlinux_link : regex :=
  Cat (lit ("href=" +:+ dquote))
    (Cat (Grp 1 (Rep CsDot 0 false)) (lit dquote)).

(** ['<a id=\"btn-mi\" href=\"(.*?)\"'] *)
Definition manjaro_link : regex :=
  Cat (lit ("<a id=" +:+ dquote +:+ "btn-mi" +:+ dquote +:+ " href="
            +:+ dquote))
    (Cat (Grp 1 (Rep CsDot 0 false)) (lit dquote)).

(** [\s] on the characters below 256: the ASCII white space, the four
    separators 28 to 31, NEL and the no-break space. *)
Definition space : regex :=
  Alt (One (CsRange "009" "013"))
    (Alt (One (CsRange "028" "032"))
      (Alt (One (CsChar "133")) (One (CsChar "160")))).

(** [r".*(\[(START|END)\s(FUNC\.|CLASS\sMETH.)\]).*"] *)
Definition marker : regex :=
  Cat (Rep CsDot 0 true)
    (Cat (Grp 1
            (Cat (One (CsChar "["))
              (Cat (Grp 2 (Alt (lit "START") (lit "END")))
                (Cat space
                  (Cat (Grp 3 (Alt (lit "FUNC.")
                                (Cat (lit "CLASS")
                                  (Cat space
                                    (Cat (lit "METH") (One CsDot))))))
                    (One (CsChar "]")))))))
      (Rep CsDot 0 true)).

(** [r".*(START).*"] and [r".*(END).*"] *)
Definition start_marker : regex :=
  Cat (Rep CsDot 0 true) (Cat (Grp 1 (lit "START")) (Rep CsDot 0 true)).
Definition end_marker : regex :=
  Cat (Rep CsDot 0 true) (Cat (Grp 1 (lit "END")) (Rep CsDot 0 true)).

End Patterns.

(** ** The world outside the program *)

(** What a path of the working directory names.  [Special] stands for
    whatever can be opened for writing and unlinked without being a
    regular file (a FIFO, a link to a character device). *)
Inductive node :=
| Regular (data : string)
| Special
| Directory.

Abbreviation FS := (gmap string node).

(** What the program does that can be seen from outside. *)
Inductive event :=
| Printed (line : string)                          (* print(line) *)
| HttpGet (url : string) (user_agent : option string)  (* requests.get *)
| ProcessRun (cmd : string)                        (* subprocess.run(cmd, shell=True) *)
| ToolProbe (argv : list string).                  (* subprocess.check_call(argv) *)

(** [requests.Response]: the fields the program reads. *)
Record Response := {
  status_code : Z;
  text : string;
  iter_content : list string   (* the body as the chunks of the stream *)
}.

Inductive http_result :=
| Responds (r : Response)
| ConnectionFails.

Inductive run_result :=
| Exits (returncode : Z)
| TimesOut.

Inductive probe_result :=
| ProbeExits (returncode : Z)
| ProbeNotFound.

Record World := {
  platform : string;                       (* sys.platform *)
  hostname : string;                       (* socket.gethostname() *)
  localtime : string;                      (* time.asctime(...) *)
  script : string;                         (* os.path.basename(__file__) *)
  importable : string -> bool;             (* __import__(module) succeeds *)
  pip_install : string -> option string;   (* None, or the text of the error *)
  random_choice : nat;                     (* the draw of random.choice *)
  http : string -> option string -> http_result;
  probe : list string -> probe_result;
  shell : string -> option Z -> FS -> run_result * FS
}.

(** ** Exceptions, results and the monad of the program *)

Inductive exn :=
| SystemExit (code : Z)
| HTTPError (status : Z)
| ConnectionError
| AttributeError
| TypeError
| IsADirectoryError (path : string)
| FileNotFoundError (path : string)
| CalledProcessError (cmd : string) (returncode : Z)
| TimeoutExpired (cmd : string) (timeout : Z).

(** [isinstance(e, Exception)]: SystemExit derives from BaseException
    only. *)
Definition is_Exception (e : exn) : bool :=
  match e with
  | SystemExit _ => false
  | _ => true
  end.

(** [str(e)] *)
Definition str_exn (e : exn) : string :=
  match e with
  | SystemExit c => Str.of_Z c
  | HTTPError st => Str.of_Z st +:+ " Error"
  | ConnectionError => "Connection error"
  | AttributeError => "'NoneType' object has no attribute 'group'"
  | TypeError => "cannot unpack non-iterable NoneType object"
  | IsADirectoryError p => "[Errno 21] Is a directory: '" +:+ p +:+ "'"
  | FileNotFoundError p =>
      "[Errno 2] No such file or directory: '" +:+ p +:+ "'"
  | CalledProcessError cmd rc =>
      "Command '" +:+ cmd +:+ "' returned non-zero exit status "
      +:+ Str.of_Z rc +:+ "."
  | TimeoutExpired cmd t =>
      "Command '" +:+ cmd +:+ "' timed out after " +:+ Str.of_Z t
      +:+ " seconds"
  end.

Inductive result (A : Type) :=
| Ret (a : A)
| Raise (e : exn).
Arguments Ret {A} a.
Arguments Raise {A} e.

Record state := {
  fs : FS;
  trace : list event;     (* oldest first *)
  cp_error : bool         (* the [error] attribute of the Verbosity object *)
}.

Definition M (A : Type) : Type := state -> result A * state.

Definition ret {A} (a : A) : M A := fun st => (Ret a, st).

Definition raise {A} (e : exn) : M A := fun st => (Raise e, st).

Definition bind {A B} (m : M A) (k : A -> M B) : M B :=
  fun st =>
    match m st with
    | (Ret a, st') => k a st'
    | (Raise e, st') => (Raise e, st')
    end.

Notation "x <- m ;; k" := (bind m (fun x => k))
  (at level 90, m at level 80, right associativity).
Notation "m ;;; k" := (bind m (fun _ => k))
  (at level 90, right associativity).

(** [try: m  except <handler>: ...  else: els]: [handler e] is [None] for
    an exception the clause does not name. *)
Definition try_except_else {A B} (m : M A) (handler : exn -> option (M B))
    (els : A -> M B) : M B :=
  fun st =>
    match m st with
    | (Ret a, st') => els a st'
    | (Raise e, st') =>
        match handler e with
        | Some h => h st'
        | None => (Raise e, st')
        end
    end.

(** [for x in xs: body(x)] *)
Fixpoint for_each {A} (xs : list A) (body : A -> M unit) : M unit :=
  match xs with
  | [] => ret tt
  | x :: xs' => body x ;;; for_each xs' body
  end.

(** The state after one more event. *)
Definition logged (e : event) (st : state) : state :=
  {| fs := fs st; trace := trace st ++ [e]; cp_error := cp_error st |}.

Definition emit (e : event) : M unit := fun st => (Ret tt, logged e st).

Definition print (line : string) : M unit := emit (Printed line).

Definition get_fs : M FS := fun st => (Ret (fs st), st).

(** The state with another file system. *)
Definition with_fs (f : FS) (st : state) : state :=
  {| fs := f; trace := trace st; cp_error := cp_error st |}.

Definition put_fs (f : FS) : M unit := fun st => (Ret tt, with_fs f st).

(** The status with which the interpreter leaves: that of [sys.exit], 1
    after an exception nobody caught, 0 at the end of the script. *)
Definition exit_status {A} (r : result A) : Z :=
  match r with
  | Ret _ => 0
  | Raise (SystemExit c) => c
  | Raise _ => 1
  end.

(** ** Files, requests and processes *)

(** [pathlib.Path(p).is_file()] *)
Definition is_file (p : string) : M bool :=
  f <- get_fs ;;
  ret (match f !! p with
       | Some (Regular _) => true
       | _ => false
       end).

(** [pathlib.Path(p).unlink(missing_ok=True)] *)
Definition unlink_missing_ok (p : string) : M unit :=
  f <- get_fs ;;
  match f !! p with
  | None => ret tt
  | Some Directory => raise (IsADirectoryError p)
  | Some _ => put_fs (delete p f)
  end.

(** [open(p, "wb")]: creates or truncates a regular file. *)
Definition open_wb (p : string) : M unit :=
  f <- get_fs ;;
  match f !! p with
  | None | Some (Regular _) => put_fs (<[p := Regular EmptyString]> f)
  | Some Special => ret tt
  | Some Directory => raise (IsADirectoryError p)
  end.

(** [handle.write(data)] on the file opened at [p] *)
Definition write (p data : string) : M unit :=
  f <- get_fs ;;
  match f !! p with
  | Some (Regular old) => put_fs (<[p := Regular (old +:+ data)]> f)
  | _ => ret tt
  end.

(** [requests.get(url, ...)] *)
Definition requests_get (w : World) (url : string)
    (user_agent : option string) : M Response :=
  emit (HttpGet url user_agent) ;;;
  match http w url user_agent with
  | Responds r => ret r
  | ConnectionFails => raise ConnectionError
  end.

(** [response.raise_for_status()] *)
Definition raise_for_status (r : Response) : M unit :=
  if (400 <=? status_code r)%Z && (status_code r <? 600)%Z
  then raise (HTTPError (status_code r))
  else ret tt.

(** [response.ok]: whether [raise_for_status] would return. *)
Definition ok (r : Response) : bool :=
  negb ((400 <=? status_code r)%Z && (status_code r <? 600)%Z).

(** [subprocess.run(cmd, check=True, shell=True, timeout=t)] *)
Definition subprocess_run (w : World) (cmd : string) (timeout : option Z)
    : M unit :=
  emit (ProcessRun cmd) ;;;
  f <- get_fs ;;
  let (r, f') := shell w cmd timeout f in
  put_fs f' ;;;
  match r with
  | Exits rc =>
      if (rc =? 0)%Z then ret tt else raise (CalledProcessError cmd rc)
  | TimesOut => raise (TimeoutExpired cmd (default 0%Z timeout))
  end.

(** ** class Verbosity *)

Module Verbosity.

Definition esc : string := String "027"%char EmptyString.
Definition red : string := esc +:+ "[31m".
Definition green : string := esc +:+ "[32m".
Definition blue : string := esc +:+ "[34m".
Definition cyan : string := esc +:+ "[36m".
Definition yellow : string := esc +:+ "[93m".
Definition pink : string := esc +:+ "[95m".
Definition reset : string := esc +:+ "[0m".

(** The attributes given to the constructor. *)
Record t := { force : bool; verbose : nat }.

(** The line [v_error] prints for a message. *)
Definition error_line (message : string) : string :=
  blue +:+ "[" +:+ red +:+ "ERROR" +:+ blue +:+ "] " +:+ reset +:+ " "
  +:+ message.

Definition sys_exit {A} (code : Z) : M A := raise (SystemExit code).

Definition v_error {A} (self : t) (message : string) : M A :=
  (fun st => (Ret tt, {| fs := fs st; trace := trace st;
                         cp_error := true |})) ;;;
  print (error_line message) ;;;
  sys_exit 0.

Definition v_info (self : t) (message : string) : M unit :=
  if (1 <? verbose self)%nat
  then print (blue +:+ "[" +:+ cyan +:+ "INFO" +:+ blue +:+ "] " +:+ reset
              +:+ message)
  else ret tt.

Definition v_ok (self : t) (message : string) : M unit :=
  if (0 <? verbose self)%nat
  then print (blue +:+ "[" +:+ green +:+ "OK" +:+ blue +:+ "] " +:+ reset
              +:+ message)
  else ret tt.

(** The prefix [v_debug] gives its lines. *)
Definition severity : string :=
  blue +:+ "[" +:+ pink +:+ "DEBUG" +:+ blue +:+ "] " +:+ reset.

Definition lf : string := String Re.newline EmptyString.

(** [v_debug(message, override)] *)
Definition v_debug (self : t) (message : string) (override : bool)
    : M unit :=
  if bool_decide (is_Some (Re.re_match Patterns.marker message)) then
    if (3 <? verbose self)%nat then
      if bool_decide (is_Some (Re.re_match Patterns.start_marker message))
      then print (lf +:+ severity +:+ pink +:+ " " +:+ message +:+ " "
                  +:+ reset)
      else
        if bool_decide (is_Some (Re.re_match Patterns.end_marker message))
        then print (severity +:+ pink +:+ " " +:+ message +:+ " "
                    +:+ reset +:+ lf +:+ lf)
        else ret tt
    else ret tt
  else
    if (2 <? verbose self)%nat && negb override
    then print (severity +:+ pink +:+ reset +:+ message)
    else
      if (3 <? verbose self)%nat && override
      then print (severity +:+ pink +:+ reset +:+ message)
      else ret tt.

(** [__del__]: the finalizer, run when the last reference to the object
    is given up. *)
Definition __del__ (self : t) : M unit :=
  try_except_else
    (v_debug self ("Running " +:+ "Verbosity" +:+ " finalizer") false)
    (fun e =>
       match e with
       | TypeError => Some (ret tt)
       | _ => None
       end)
    (fun _ => ret tt).

End Verbosity.

(** ** The functions of the module *)

Definition nl : string := String "010"%char EmptyString.
Definition tab : string := String "009"%char EmptyString.

(** [f"{message}"] for a value that is a string or None. *)
Definition fmt (message : option string) : string :=
  default "None" message.

(** The second component of the pairs [download_file] returns. *)
Definition already_exist (image : string) : string :=
  "File '" +:+ image +:+ "' already exist.".

Definition downloaded (image : string) : string :=
  "File '" +:+ image +:+ "' downloaded.".

(** Lines 283-294 of [download_file]: what follows the test on [force].
    The chunks are written in their order; the bar [tqdm] draws on
    standard error around the loop is not recorded. *)
Definition download_fetch (w : World) (image url : string)
    : M (option (bool * option string)) :=
  response <- requests_get w url None ;;
  if ok response then
    open_wb image ;;;
    for_each (iter_content response) (fun data => write image data) ;;;
    present <- is_file image ;;
    if present
    then ret (Some (false, Some (downloaded image)))
    else ret None
  else
    raise_for_status response ;;;
    ret (Some (true, None)).

(** [download_file(force=..., image=..., url=...)].  The Python function
    returns a pair, or None when it runs off its end. *)
Definition download_file (w : World) (force : bool) (image url : string)
    : M (option (bool * option string)) :=
  if force then
    try_except_else (unlink_missing_ok image)
      (fun e => match e with
                | FileNotFoundError _ => Some (download_fetch w image url)
                | _ => None
                end)
      (fun _ => download_fetch w image url)
  else
    present <- is_file image ;;
    if present
    then ret (Some (false, Some (already_exist image)))
    else download_fetch w image url.

Definition my_headers : list string :=
  [ "Mozilla/5.0 (Windows NT 6.3; WOW64) AppleWebKit/537.36";
    "Mozilla/5.0 (Macintosh; Intel Mac OS X 10_9_2) AppleWebKit/537.36";
    "Mozilla/5.0 (Windows NT 6.1; WOW64; rv:30.0) Gecko/20100101";
    "Mozilla/5.0 (Macintosh; Intel Mac OS X 10_9_2)";
    "Mozilla/5.0 (compatible; MSIE 10.0; Windows NT 6.2; Win64; x64)";
    "Opera/9.25 (Windows NT 5.1; U; en)";
    "Mozilla/5.0 (compatible; Konqueror/3.5; Linux) KHTML/3.5.5)";
    "Lynx/2.8.5rel.1 libwww-FM/2.14 SSL-MM/1.4.1 GNUTLS/1.2.9";
    "Mozilla/5.0 (X11; Ubuntu; Linux i686; rv:10.0) Gecko/20100101" ].

(** [random.choice(my_headers)] *)
Definition chosen_user_agent (w : World) : string :=
  nth (random_choice w mod List.length my_headers) my_headers "".

(** A pattern of the source: its text, and what [re] compiles it to. *)
Record pattern := { source : string; compiled : Re.regex }.

(** [get_url_paths(html, pattern_string)]: the list of links, or None
    were [raise_for_status] to return. *)
Definition get_url_paths (w : World) (html : string)
    (pattern_string : pattern) : M (option (list string)) :=
  let user_agent := chosen_user_agent w in
  response <- requests_get w html (Some user_agent) ;;
  if ok response then
    let pattern := Re.dotall (compiled pattern_string) in
    let downloadurl := Re.findall pattern (text response) in
    ret (Some downloadurl)
  else
    raise_for_status response ;;;
    ret None.

(** [import_package] followed by [install_package] when it fails: whether
    the package ends up imported. *)
Definition import_or_install (w : World) (module : string) : M bool :=
  if importable w module then ret true
  else
    match pip_install w module with
    | None => ret true
    | Some e => print e ;;; ret false
    end.

(** [is_tool(console, name)] *)
Definition is_tool (w : World) (console : Verbosity.t)
    (name : list string) : M unit :=
  emit (ToolProbe name) ;;;
  match probe w name with
  | ProbeExits rc =>
      if (rc =? 0)%Z then ret tt
      else raise (CalledProcessError (String.concat " " name) rc)
  | ProbeNotFound =>
      Verbosity.v_error console
        ("No such file or directory: '" +:+ hd "" name +:+ "'"
         +:+ nl +:+ tab +:+ " Download & install software from "
         +:+ "https://www.qemu.org/download/ ")
  end.

(** ** Sorting *)

(** [l.sort(reverse=True)] on strings: greatest first, equal elements in
    their original order. *)
Fixpoint insert_desc (x : string) (l : list string) : list string :=
  match l with
  | [] => [x]
  | y :: l' => if String.leb y x then x :: l else y :: insert_desc x l'
  end.

Definition sort_reverse (l : list string) : list string :=
  fold_right insert_desc [] l.

(** ** The catalog and the arguments *)

(** One value of the dict [DISTRO_OS]. *)
Record entry := {
  filter_value : pattern;
  url : string;
  url_pattern : pattern
}.

(** The dict, in insertion order. *)
Definition catalog : Type := list (string * entry).

Fixpoint lookup_distro (d : catalog) (name : string) : option entry :=
  match d with
  | [] => None
  | (k, e) :: d' => if String.eqb k name then Some e else lookup_distro d' name
  end.

Definition archlinux : entry :=
  {| filter_value :=
       {| source := "archlinux-[0-9]+.[0-9]+.[0-9]+-.*.iso$";
          compiled := Patterns.archlinux_filter |};
     url := "https://archlinux.cu.be/iso/latest/";
     url_pattern :=
       {| source := "href=" +:+ Patterns.dquote +:+ "(.*?)"
                    +:+ Patterns.dquote;
          compiled := Patterns.archlinux_link |} |}.

Definition manjaro : entry :=
  {| filter_value :=
       {| source := ".*/(manjaro-xfce-.*.iso)$";
          compiled := Patterns.manjaro_filter |};
     url := "https://manjaro.org/download/";
     url_pattern :=
       {| source := "<a id=" +:+ Patterns.dquote +:+ "btn-mi"
                    +:+ Patterns.dquote +:+ " href=" +:+ Patterns.dquote
                    +:+ "(.*?)" +:+ Patterns.dquote;
          compiled := Patterns.manjaro_link |} |}.

Definition DISTRO_OS : catalog :=
  [ ("archlinux", archlinux); ("manjaro", manjaro) ].

(** The namespace [parser.parse_args()] returns. *)
Record Args := {
  arg_list : bool;
  arg_distro : string;
  arg_force : bool;
  arg_size : string;
  arg_verbose : option nat;
  arg_memory : Z + string     (* the int default, or the text given *)
}.

Definition default_args : Args :=
  {| arg_list := false; arg_distro := "archlinux"; arg_force := false;
     arg_size := "3G"; arg_verbose := None; arg_memory := inl 2048%Z |}.

(** [f"{args.memory}"] *)
Definition fmt_memory (m : Z + string) : string :=
  match m with
  | inl z => Str.of_Z z
  | inr s => s
  end.

(** ** The stages of [main] *)

(** Lines 482-485: the links the filter pattern accepts. *)
Definition filter_links (e : entry) (result : list string) : list string :=
  List.filter
    (fun v => bool_decide (is_Some (Re.re_match (compiled (filter_value e)) v)))
    result.

(** Lines 493-498: the greatest link, made absolute. *)
Definition select_html (e : entry) (filtered_values : list string) : string :=
  let html := hd "" (sort_reverse filtered_values) in
  match Re.re_search Patterns.https_re html with
  | Some _ => html
  | None => url e +:+ html
  end.

(** Lines 506-508: [re.compile(...).search(iso_image).group(0)]; None
    stands for the AttributeError of [None.group]. *)
Definition version_of (iso_image : string) : option string :=
  match Re.re_search Patterns.version_re iso_image with
  | Some m => Some (Re.group0 iso_image m)
  | None => None
  end.

Definition cloud_image_name (linux_distro version_image : string) : string :=
  linux_distro +:+ "-cloud-" +:+ version_image +:+ "-x86_64.img".

(** Lines 523-544: the block device image. *)
Definition provision (w : World) (cp : Verbosity.t)
    (cloud_image size : string) : M unit :=
  unlink_missing_ok cloud_image ;;;
  try_except_else
    (subprocess_run w
       ("qemu-img create -f raw " +:+ cloud_image +:+ " " +:+ size)
       (Some 30%Z))
    (fun e =>
       if is_Exception e then Some (Verbosity.v_error cp (str_exn e))
       else None)
    (fun _ =>
       present <- is_file cloud_image ;;
       if present then
         Verbosity.v_ok cp
           ("A block device image '" +:+ cloud_image
            +:+ " has been created.")
       else
         Verbosity.v_error cp
           ("Unable to create a block device image with the name "
            +:+ "'" +:+ cloud_image +:+ "'.")).

(** Lines 547-562, one element for each line of the literal. *)
Definition cmd_linux_lines (memory iso_image cloud_image : string)
    : list string :=
  [ "qemu-system-x86_64 -cpu kvm64 ";
    "-smp 2 ";
    "-m " +:+ memory +:+ " ";
    "-k fr_be ";
    "-machine q35 ";
    "-cdrom " +:+ iso_image +:+ " ";
    "-drive file=" +:+ cloud_image
      +:+ ",if=virtio,media=disk,format=raw,cache=none ";
    "-device virtio-scsi-pci,id=virtio ";
    "-enable-kvm ";
    "-device virtio-serial-pci ";
    "-device virtserialport,chardev=spicechannel0,name=com.redhat.spice.0 ";
    "-chardev spicevmc,id=spicechannel0,name=vdagent ";
    "-nic user,model=virtio-net-pci,hostfwd=tcp::8022-:22 ";
    "-vga qxl ";
    "-boot c" +:+ nl ].

(** Lines 564-576. *)
Definition cmd_windows_lines (memory iso_image cloud_image : string)
    : list string :=
  [ "qemu-system-x86_64 -cpu kvm64 ";
    "-smp 2 ";
    "-m " +:+ memory +:+ " ";
    "-k fr_be ";
    "-machine q35 ";
    "-cdrom " +:+ iso_image +:+ " ";
    "-drive file=" +:+ cloud_image
      +:+ ",if=virtio,media=disk,format=raw,cache=none ";
    "-device virtio-scsi-pci,id=virtio ";
    "-device virtio-serial-pci ";
    "-nic user,model=virtio-net-pci,hostfwd=tcp::8022-:22 ";
    "-vga qxl ";
    "-boot c" +:+ nl ].

Definition cmd_linux (memory iso_image cloud_image : string) : string :=
  String.concat "" (cmd_linux_lines memory iso_image cloud_image).

Definition cmd_windows (memory iso_image cloud_image : string) : string :=
  String.concat "" (cmd_windows_lines memory iso_image cloud_image).

(** Lines 577-600: the emulator. *)
Definition launch (w : World) (cp : Verbosity.t)
    (memory iso_image cloud_image : string) : M unit :=
  try_except_else
    (if String.eqb (platform w) "win32"
     then subprocess_run w (cmd_windows memory iso_image cloud_image) None
     else subprocess_run w (cmd_linux memory iso_image cloud_image) None)
    (fun e =>
       if is_Exception e then Some (Verbosity.v_error cp (str_exn e))
       else None)
    (fun _ => ret tt).

Definition packages_to_import : list string :=
  ["bs4"; "colorama"; "argparse"; "random"; "requests"; "tqdm"].

Definition required_applications : list string :=
  ["qemu-img"; "qemu-system-x86_64"].

(** Lines 408-417: whether some package could be neither imported nor
    installed. *)
Fixpoint import_packages (w : World) (packages : list string) (error : bool)
    : M bool :=
  match packages with
  | [] => ret error
  | package :: rest =>
      imported <- import_or_install w package ;;
      import_packages w rest (if imported then error else true)
  end.

(** [linux_distro not in DISTRO_OS.keys()], with the entry when the name
    is a key. *)
Definition registered (d : catalog) (linux_distro : option string)
    : option (string * entry) :=
  match linux_distro with
  | None => None
  | Some name =>
      match lookup_distro d name with
      | Some e => Some (name, e)
      | None => None
      end
  end.

(** [main()], reading the global [DISTRO_OS] as [distro_os].  When [main]
    returns, its frame is released and [cp], which nothing else refers to,
    is finalized.  After [sys.exit] or an exception the traceback holds the
    frame, so that [cp] outlives the call. *)
Definition main (distro_os : catalog) (w : World) (args : Args) : M unit :=
  error <- import_packages w packages_to_import false ;;
  (if error : bool then Verbosity.sys_exit 1 else ret tt) ;;;
  let force := arg_force args in
  let size := if String.eqb (arg_size args) "" then "3G" else arg_size args in
  let verbose := default 0%nat (arg_verbose args) in
  let linux_distro :=
    if String.eqb (arg_distro args) "" then None
    else Some (Str.lower (arg_distro args)) in
  let cp := {| Verbosity.force := force; Verbosity.verbose := verbose |} in
  Verbosity.v_ok cp
    ("Running file '" +:+ script w +:+ "' from " +:+ hostname w +:+ " on "
     +:+ localtime w) ;;;
  (if arg_list args then
     print "Available Linux distributions to choose from:" ;;;
     for_each distro_os (fun d => print ("  - " +:+ fst d)) ;;;
     Verbosity.sys_exit 0
   else ret tt) ;;;
  match registered distro_os linux_distro with
  | None =>
      Verbosity.v_error cp
        ("The value behind the argument '--distro' isn't part of "
         +:+ "the available Linux distributions." +:+ nl
         +:+ "       Please use "
         +:+ "the argument -l/--list to view of the available Linux "
         +:+ "distributions.")
  | Some (linux_distro, e) =>
      Verbosity.v_info cp
        ("--distro " +:+ linux_distro +:+ " listed under available Linux "
         +:+ "distributions") ;;;
      for_each required_applications
        (fun app => is_tool w cp [app; "--version"]) ;;;
      result <- get_url_paths w (url e) (url_pattern e) ;;
      match result with
      | None => raise TypeError      (* filter(..., None) *)
      | Some result =>
      let filtered_values := filter_links e result in
      if (List.length filtered_values =? 0)%nat then
        Verbosity.v_error cp
          ("Unable to find an image with the following string "
           +:+ "pattern '" +:+ source (filter_value e) +:+ "'.")
      else
      let html := select_html e filtered_values in
      let iso_image := Str.last_segment "/" html in
      match version_of iso_image with
      | None => raise AttributeError
      | Some version_image =>
      let cloud_image := cloud_image_name linux_distro version_image in
      Verbosity.v_info cp ("CD/DVD ISO image: " +:+ iso_image) ;;;
      Verbosity.v_info cp
        ("Linux distribution version: " +:+ version_image) ;;;
      Verbosity.v_info cp ("Cloud image name: " +:+ cloud_image) ;;;
      outcome <- download_file w force iso_image html ;;
      match outcome with
      | None => raise TypeError      (* error, message = None *)
      | Some (error, message) =>
      (if error : bool then Verbosity.v_error cp (fmt message)
       else Verbosity.v_ok cp (fmt message)) ;;;
      provision w cp cloud_image size ;;;
      launch w cp (fmt_memory (arg_memory args)) iso_image cloud_image ;;;
      Verbosity.__del__ cp
      end end end
  end.

(** ** Notions the properties are stated with *)

(** [x] comes no later than [y] in descending order. *)
Definition str_ge (x y : string) : Prop := String.leb y x = true.

(** Where the match of [p] at index [i] of [s] ends, and its text. *)
Definition end_at (p : Re.regex) (s : string) (i : nat) : option nat :=
  fst <$> Re.match_at p s i.

Definition text_at (p : Re.regex) (s : string) (i : nat) : option string :=
  (fun e => Str.slice i e s) <$> end_at p s i.

(** The first of the options that is defined. *)
Definition or_else {A} (o1 o2 : option A) : option A :=
  match o1 with
  | Some x => Some x
  | None => o2
  end.

(** The version read at index [i]: the three patterns in their order. *)
Definition version_at (s : string) (i : nat) : option string :=
  or_else (text_at Patterns.major_minor_patch s i)
    (or_else (text_at Patterns.major_minor s i)
       (text_at Patterns.date_T s i)).

(** The extraction as section 4.3 of the specification words it: the
    first pattern of the precedence list that matches anywhere wins, and
    its leftmost match is used. *)
Definition extract_by_precedence (fileName : string) : option string :=
  or_else (Re.group0 fileName <$> Re.re_search Patterns.major_minor_patch fileName)
    (or_else (Re.group0 fileName <$> Re.re_search Patterns.major_minor fileName)
       (Re.group0 fileName <$> Re.re_search Patterns.date_T fileName)).

(** The number of HTTP requests in a trace. *)
Fixpoint http_gets (t : list event) : nat :=
  match t with
  | [] => 0
  | HttpGet _ _ :: t' => S (http_gets t')
  | _ :: t' => http_gets t'
  end.

(** The host, as line 578 tells it from [sys.platform]. *)
Inductive host := Linux | Windows.

Definition host_of (w : World) : host :=
  if String.eqb (platform w) "win32" then Windows else Linux.

(** The command line 578 selects. *)
Definition build_command (h : host) (memory iso_image cloud_image : string)
    : string :=
  match h with
  | Windows => cmd_windows memory iso_image cloud_image
  | Linux => cmd_linux memory iso_image cloud_image
  end.

Definition command_lines (h : host) (memory iso_image cloud_image : string)
    : list string :=
  match h with
  | Windows => cmd_windows_lines memory iso_image cloud_image
  | Linux => cmd_linux_lines memory iso_image cloud_image
  end.

(** The lines of the Linux literal that turn on hardware acceleration and
    attach the guest-agent channel. *)
Definition kvm_and_agent_lines : list string :=
  [ "-enable-kvm ";
    "-device virtserialport,chardev=spicechannel0,name=com.redhat.spice.0 ";
    "-chardev spicevmc,id=spicechannel0,name=vdagent " ].

(** The value of an option on a command line split into words; of
    several occurrences the last one counts. *)
Fixpoint option_arg (opt : string) (tokens : list string) : option string :=
  match tokens with
  | o :: ((v :: _) as rest) =>
      match option_arg opt rest with
      | Some x => Some x
      | None => if String.eqb o opt then Some v else None
      end
  | _ => None
  end.

(** The drive letters of the emulator's [-boot] option on x86: a and b
    the floppies, c the first hard disk, d the first CD-ROM, n to p the
    network. *)
Inductive boot_device := Floppy | HardDisk | CdRom | Network.

Definition boot_letter (c : ascii) : option boot_device :=
  match c with
  | "a" | "b" => Some Floppy
  | "c" => Some HardDisk
  | "d" => Some CdRom
  | "n" | "o" | "p" => Some Network
  | _ => None
  end%char.

(** The device the machine started by [cmd] boots first, for a [-boot]
    value made of drive letters. *)
Definition first_boot_device (cmd : string) : option boot_device :=
  match option_arg "-boot" (String.words cmd) with
  | Some v =>
      if Str.contains "=" v then None
      else
        match v with
        | String c _ => boot_letter c
        | EmptyString => None
        end
  | None => None
  end.

(** ** Worlds and states the examples run in *)

(** Three links of the archlinux listing, as section 8 of the
    specification has them. *)
Definition listing_body : string :=
  "<a href=" +:+ Patterns.dquote +:+ "archlinux-2024.01.01-x86_64.iso"
  +:+ Patterns.dquote +:+ ">a</a>" +:+ nl
  +:+ "<a href=" +:+ Patterns.dquote +:+ "archlinux-2024.03.01-x86_64.iso"
  +:+ Patterns.dquote +:+ ">b</a>" +:+ nl
  +:+ "<a href=" +:+ Patterns.dquote +:+ "archlinux-2024.02.15-x86_64.iso"
  +:+ Patterns.dquote +:+ ">c</a>".

(** A world in which every package is imported and every tool installed.
    The server answers the two listing URLs with [body] and the status
    [listing_status], every other URL with a two-chunk body and the status
    [download_status]; [qemu-img] creates the image it is asked for when
    [creates] is set; the emulator exits with [launch_rc]. *)
Definition make_world (listing_status : Z) (body : string)
    (download_status : Z) (creates : bool) (launch_rc : Z) : World :=
  {| platform := "linux";
     hostname := "host";
     localtime := "Sun Apr 14 09:59:12 2024";
     script := "build_image.py";
     importable := fun _ => true;
     pip_install := fun _ => None;
     random_choice := 3;
     http := fun u _ =>
       if String.eqb u (url archlinux) || String.eqb u (url manjaro)
       then Responds {| status_code := listing_status; text := body;
                        iter_content := [] |}
       else Responds {| status_code := download_status; text := "";
                        iter_content := ["ISO "; "9660"] |};
     probe := fun _ => ProbeExits 0;
     shell := fun cmd _ f =>
       if String.prefix "qemu-img" cmd
       then (Exits 0,
             if creates
             then <["archlinux-cloud-2024.03.01-x86_64.img" := Regular ""]> f
             else f)
       else (Exits launch_rc, f) |}.

(** The listing of section 8, one status for both requests, an emulator
    that exits with 0. *)
Definition example_world (status : Z) (creates : bool) : World :=
  make_world status listing_body status creates 0.

(** A download page whose only link names no version. *)
Definition unversioned_body : string :=
  "<a id=" +:+ Patterns.dquote +:+ "btn-mi" +:+ Patterns.dquote
  +:+ " href=" +:+ Patterns.dquote
  +:+ "https://download.manjaro.org/xfce/manjaro-xfce-latest.iso"
  +:+ Patterns.dquote +:+ ">".

Definition args_for (distro : string) : Args :=
  {| arg_list := false; arg_distro := distro; arg_force := false;
     arg_size := "3G"; arg_verbose := None; arg_memory := inl 2048%Z |}.

Definition initial (f : FS) : state :=
  {| fs := f; trace := []; cp_error := false |}.

(** An event that is a printed line. *)
Definition is_print (e : event) : Prop :=
  match e with
  | Printed _ => True
  | _ => False
  end.

(** The state in which [v_error] leaves. *)
Definition failed (message : string) (st : state) : state :=
  {| fs := fs st;
     trace := trace st ++ [Printed (Verbosity.error_line message)];
     cp_error := true |}.

(** The command line 529 builds. *)
Definition qemu_img_create (cloud_image size : string) : string :=
  "qemu-img create -f raw " +:+ cloud_image +:+ " " +:+ size.

(** The exit status of a run of the script, and the last line it
    printed. *)
Definition status_of (run : result unit * state) : Z := exit_status (fst run).

Definition last_event (run : result unit * state) : option event :=
  last (trace (snd run)).

(** Whether a line is one of [v_error]. *)
Definition is_error_line (e : option event) : bool :=
  match e with
  | Some (Printed l) => String.prefix (Verbosity.error_line "") l
  | _ => false
  end.

(** ** What a pattern matches

    The language of the patterns, told without the matcher: at index
    [pos] of the subject, with [u +:+ t] still to read, [r] can consume
    [u] and leave [t]. *)

Fixpoint all_in (cs : Re.charset) (u : string) : bool :=
  match u with
  | EmptyString => true
  | String c u' => Re.cs_mem cs c && all_in cs u'
  end.

Inductive matches : Re.regex -> nat -> string -> string -> Prop :=
| M_eps pos t :
    matches Re.Eps pos EmptyString t
| M_one cs c pos t :
    Re.cs_mem cs c = true ->
    matches (Re.One cs) pos (String c EmptyString) t
| M_rep cs lo greedy pos u t :
    all_in cs u = true -> (lo <= String.length u)%nat ->
    matches (Re.Rep cs lo greedy) pos u t
| M_cat r1 r2 pos u1 u2 t :
    matches r1 pos u1 (u2 +:+ t) ->
    matches r2 (pos + String.length u1) u2 t ->
    matches (Re.Cat r1 r2) pos (u1 +:+ u2) t
| M_alt_l r1 r2 pos u t :
    matches r1 pos u t -> matches (Re.Alt r1 r2) pos u t
| M_alt_r r1 r2 pos u t :
    matches r2 pos u t -> matches (Re.Alt r1 r2) pos u t
| M_grp n r pos u t :
    matches r pos u t -> matches (Re.Grp n r) pos u t
| M_bol t :
    matches Re.Bol 0 EmptyString t
| M_eol pos t :
    Re.at_end t = true -> matches Re.Eol pos EmptyString t.

(** The pattern matches some text of [s] that starts at index [i]. *)
Definition occurs_at (r : Re.regex) (s : string) (i : nat) : Prop :=
  exists u t, Str.drop i s = u +:+ t /\ matches r i u t.

(** The words of the Linux literal that turn on hardware acceleration
    and attach the guest-agent channel. *)
Definition kvm_and_agent_words : list string :=
  [ "-enable-kvm";
    "virtserialport,chardev=spicechannel0,name=com.redhat.spice.0";
    "-chardev";
    "spicevmc,id=spicechannel0,name=vdagent" ].

(** The word the image is named in. *)
Definition drive_word (cloud_image : string) : string :=
  "file=" +:+ cloud_image +:+ ",if=virtio,media=disk,format=raw,cache=none".

(** ** Notions for the properties of the other stages *)

(** Whether a character occurs in a string. *)
Fixpoint has_char (c : ascii) (s : string) : bool :=
  match s with
  | EmptyString => false
  | String d s' => Ascii.eqb d c || has_char c s'
  end.

(** Whether every character of a string passes a test. *)
Fixpoint all_chars (f : ascii -> bool) (s : string) : bool :=
  match s with
  | EmptyString => true
  | String c s' => f c && all_chars f s'
  end.

(** The characters a text matched by a pattern can be made of. *)
Fixpoint may (r : Re.regex) (c : ascii) : bool :=
  match r with
  | Re.One cs | Re.Rep cs _ _ => Re.cs_mem cs c
  | Re.Cat r1 r2 | Re.Alt r1 r2 => may r1 c || may r2 c
  | Re.Grp _ r1 => may r1 c
  | _ => false
  end.

(** A digit, a dot or the letter T. *)
Definition version_char (c : ascii) : bool :=
  Re.cs_mem Patterns.digit c || Ascii.eqb c "." || Ascii.eqb c "T".

(** The arguments with another value of [--distro]. *)
Definition set_distro (distro : string) (args : Args) : Args :=
  {| arg_list := arg_list args; arg_distro := distro;
     arg_force := arg_force args; arg_size := arg_size args;
     arg_verbose := arg_verbose args; arg_memory := arg_memory args |}.

(** ** What a run may do *)

(** The number of shell commands in a trace, and of requests for an
    artifact (the ones [download_file] makes, without a User-Agent). *)
Fixpoint process_runs (t : list event) : nat :=
  match t with
  | [] => 0
  | ProcessRun _ :: t' => S (process_runs t')
  | _ :: t' => process_runs t'
  end.

Fixpoint downloads (t : list event) : nat :=
  match t with
  | [] => 0
  | HttpGet _ None :: t' => S (downloads t')
  | _ :: t' => downloads t'
  end.

(** From [s] to [s'] the trace only grew, by at most [gets] requests and
    [runs] shell commands, and the file system is the same unless an
    artifact was requested or a shell command was run. *)
Definition effect (gets runs : nat) (s s' : state) : Prop :=
  exists d,
    trace s' = trace s ++ d /\
    (http_gets d <= gets)%nat /\ (process_runs d <= runs)%nat /\
    (fs s' = fs s \/ (0 < downloads d + process_runs d)%nat).

Definition has_effect {A} (gets runs : nat) (m : M A) : Prop :=
  forall st, effect gets runs st (snd (m st)).

(** The state after some more events. *)
Definition extended (d : list event) (st : state) : state :=
  {| fs := fs st; trace := trace st ++ d; cp_error := cp_error st |}.

(** The texts pip gives for the packages that can be neither imported nor
    installed, in the order of the packages. *)
Definition pip_errors (w : World) (packages : list string) : list string :=
  flat_map
    (fun p =>
       if importable w p then []
       else match pip_install w p with
            | Some e => [e]
            | None => []
            end)
    packages.

(** The line [v_ok] prints for a message, and what it adds to the trace
    at a verbosity. *)
Definition ok_line (message : string) : string :=
  Verbosity.blue +:+ "[" +:+ Verbosity.green +:+ "OK" +:+ Verbosity.blue
  +:+ "] " +:+ Verbosity.reset +:+ message.

Definition ok_events (cp : Verbosity.t) (message : string) : list event :=
  if (0 <? Verbosity.verbose cp)%nat then [Printed (ok_line message)] else [].

(** The first line of every run. *)
Definition greeting (w : World) : string :=
  "Running file '" +:+ script w +:+ "' from " +:+ hostname w +:+ " on "
  +:+ localtime w.

(** The Verbosity object [main] builds from the arguments. *)
Definition cp_of (args : Args) : Verbosity.t :=
  {| Verbosity.force := arg_force args;
     Verbosity.verbose := default 0%nat (arg_verbose args) |}.

(** The probes of a list of applications, and the message for a missing
    one. *)
Definition probed (apps : list string) : list event :=
  map (fun app => ToolProbe [app; "--version"]) apps.

Definition missing_tool (app : string) : string :=
  "No such file or directory: '" +:+ app +:+ "'"
  +:+ nl +:+ tab +:+ " Download & install software from "
  +:+ "https://www.qemu.org/download/ ".

(** ** The links of a listing page *)

(** The shape of both link patterns of the catalog: a literal, a lazy
    group, a double quote. *)
Definition link_pattern (before : string) : Re.regex :=
  Re.Cat (Re.lit before)
    (Re.Cat (Re.Grp 1 (Re.Rep Re.CsDot 0 false)) (Re.lit Patterns.dquote)).

Definition quote : ascii := "034"%char.

(** The index of the first double quote of a string. *)
Fixpoint first_quote (s : string) : option nat :=
  match s with
  | EmptyString => None
  | String c s' =>
      if Ascii.eqb c quote then Some 0%nat else S <$> first_quote s'
  end.

(** Whether [v_debug] has a line to print: a message that carries a
    marker needs a verbosity above 3, any other message a verbosity above
    2, and above 3 when [override] is set. *)
Definition debug_shown (self : Verbosity.t) (message : string)
    (override : bool) : bool :=
  if bool_decide (is_Some (Re.re_match Patterns.marker message))
  then (3 <? Verbosity.verbose self)%nat
  else if override then (3 <? Verbosity.verbose self)%nat
       else (2 <? Verbosity.verbose self)%nat.

(** ** The end of a run *)

(** What the finalizer of [cp] adds to the trace. *)
Definition finalizer_events (cp : Verbosity.t) : list event :=
  if (2 <? Verbosity.verbose cp)%nat
  then [Printed (Verbosity.severity +:+ Verbosity.pink +:+ Verbosity.reset
                 +:+ "Running Verbosity finalizer")]
  else [].

(** The requests of a trace, each with its URL and its User-Agent. *)
Fixpoint requests_of (t : list event) : list (string * option string) :=
  match t with
  | [] => []
  | HttpGet u ua :: t' => (u, ua) :: requests_of t'
  | _ :: t' => requests_of t'
  end.

(** The number of tool probes in a trace. *)
Fixpoint tool_probes (t : list event) : nat :=
  match t with
  | [] => 0
  | ToolProbe _ :: t' => S (tool_probes t')
  | _ :: t' => tool_probes t'
  end.

(** * Properties *)

(** ** Appending strings *)

Section AppendFacts.

Lemma string_app_cons (c : ascii) (s t : string) :
  String c s +:+ t = String c (s +:+ t).
Proof. reflexivity. Qed.

Lemma string_app_nil_l (t : string) : "" +:+ t = t.
Proof. reflexivity. Qed.

Lemma string_app_nil_r (s : string) : s +:+ "" = s.
Proof.
  induction s as [|c s IH]; [reflexivity|].
  now rewrite string_app_cons, IH.
Qed.

Lemma string_app_assoc (s1 s2 s3 : string) :
  (s1 +:+ s2) +:+ s3 = s1 +:+ (s2 +:+ s3).
Proof.
  induction s1 as [|c s1 IH]; [reflexivity|].
  now rewrite !string_app_cons, IH.
Qed.

Lemma concat_cons (c : string) (l : list string) :
  String.concat "" (c :: l) = c +:+ String.concat "" l.
Proof.
  destruct l as [|d l]; [|reflexivity].
  cbn [String.concat]. now rewrite string_app_nil_r.
Qed.

Lemma string_length_app (s1 s2 : string) :
  String.length (s1 +:+ s2) = (String.length s1 + String.length s2)%nat.
Proof.
  induction s1 as [|c s1 IH]; [reflexivity|].
  rewrite string_app_cons. cbn [String.length]. now rewrite IH.
Qed.

End AppendFacts.

(** ** The order of strings and the descending sort *)

Section StringOrder.

Lemma ascii_compare_trans_lt (a b c : ascii) :
  Ascii.compare a b = Lt -> Ascii.compare b c = Lt ->
  Ascii.compare a c = Lt.
Proof.
  unfold Ascii.compare. rewrite !N.compare_lt_iff. apply N.lt_trans.
Qed.

Lemma ascii_compare_eq (a b : ascii) : Ascii.compare a b = Eq -> a = b.
Proof. apply Ascii.compare_eq_iff. Qed.

Lemma ascii_compare_refl (a : ascii) : Ascii.compare a a = Eq.
Proof. unfold Ascii.compare. apply N.compare_refl. Qed.

Lemma string_compare_refl (s : string) : String.compare s s = Eq.
Proof.
  induction s as [|a s IH]; simpl; [reflexivity|].
  now rewrite ascii_compare_refl.
Qed.

Lemma string_leb_refl (s : string) : String.leb s s = true.
Proof. unfold String.leb. now rewrite string_compare_refl. Qed.

Lemma string_leb_trans (s1 s2 s3 : string) :
  String.leb s1 s2 = true -> String.leb s2 s3 = true ->
  String.leb s1 s3 = true.
Proof.
  unfold String.leb. revert s2 s3.
  induction s1 as [|a s1 IH]; intros [|b s2] [|c s3]; simpl; try easy.
  destruct (Ascii.compare a b) eqn:Hab; try easy;
    destruct (Ascii.compare b c) eqn:Hbc; try easy.
  - apply ascii_compare_eq in Hab, Hbc. subst.
    rewrite ascii_compare_refl. apply IH.
  - apply ascii_compare_eq in Hab. subst. now rewrite Hbc.
  - apply ascii_compare_eq in Hbc. subst. now rewrite Hab.
  - now rewrite (ascii_compare_trans_lt _ _ _ Hab Hbc).
Qed.

End StringOrder.

Section SortReverse.

Lemma insert_desc_perm (x : string) (l : list string) :
  Permutation (x :: l) (insert_desc x l).
Proof.
  induction l as [|y l IH]; simpl; [reflexivity|].
  destruct (String.leb y x); [reflexivity|].
  rewrite perm_swap. now apply perm_skip.
Qed.

Lemma sort_reverse_perm (l : list string) :
  Permutation l (sort_reverse l).
Proof.
  induction l as [|x l IH]; simpl; [reflexivity|].
  rewrite <- insert_desc_perm. now apply perm_skip.
Qed.

Lemma insert_desc_sorted (x : string) (l : list string) :
  StronglySorted str_ge l -> StronglySorted str_ge (insert_desc x l).
Proof.
  induction 1 as [|y l Hs IH Hy]; simpl.
  - repeat constructor.
  - destruct (String.leb y x) eqn:Hyx.
    + constructor; [now constructor|].
      constructor; [exact Hyx|].
      rewrite List.Forall_forall in Hy |- *. intros z Hz.
      unfold str_ge in *. eapply string_leb_trans; [apply Hy, Hz|exact Hyx].
    + constructor; [exact IH|].
      rewrite List.Forall_forall in Hy |- *. intros z Hz.
      apply (Permutation_in _ (Permutation_sym (insert_desc_perm x l))) in Hz.
      destruct Hz as [<-|Hz]; [|now apply Hy].
      unfold str_ge. destruct (String.leb_total x y) as [H|H]; [exact H|].
      congruence.
Qed.

Lemma sort_reverse_sorted (l : list string) :
  StronglySorted str_ge (sort_reverse l).
Proof.
  induction l as [|x l IH]; simpl; [constructor|].
  now apply insert_desc_sorted.
Qed.

(** The first element of the sorted list is in the list and bounds it. *)
Lemma sort_reverse_hd (l : list string) :
  l <> [] ->
  In (hd "" (sort_reverse l)) l /\
  forall x, In x l -> String.leb x (hd "" (sort_reverse l)) = true.
Proof.
  intros Hne.
  pose proof (sort_reverse_perm l) as Hp.
  pose proof (sort_reverse_sorted l) as Hs.
  destruct (sort_reverse l) as [|c t] eqn:E.
  - apply Permutation_sym, Permutation_nil in Hp. contradiction.
  - simpl. split.
    + apply (Permutation_in _ (Permutation_sym Hp)). now left.
    + intros x Hx. apply (Permutation_in _ Hp) in Hx.
      destruct Hx as [<-|Hx]; [apply string_leb_refl|].
      inversion Hs as [|? ? _ Hall]; subst.
      rewrite List.Forall_forall in Hall. now apply Hall.
Qed.

(** The greatest element is unique, so the order in which the links
    come does not matter. *)
Lemma sort_reverse_hd_perm (l1 l2 : list string) :
  Permutation l1 l2 ->
  hd "" (sort_reverse l1) = hd "" (sort_reverse l2).
Proof.
  intros Hp. destruct l1 as [|a l1].
  - apply Permutation_nil in Hp. now subst.
  - assert (a :: l1 <> []) as H1 by easy.
    assert (l2 <> []) as H2.
    { intros ->. apply Permutation_sym, Permutation_nil in Hp. easy. }
    destruct (sort_reverse_hd _ H1) as [Hin1 Hmax1].
    destruct (sort_reverse_hd _ H2) as [Hin2 Hmax2].
    apply String.leb_antisym.
    + apply Hmax2. now apply (Permutation_in _ Hp).
    + apply Hmax1. now apply (Permutation_in _ (Permutation_sym Hp)).
Qed.

End SortReverse.

(** ** The listing fetch *)

(** What [get_url_paths] does with each answer of the server. *)
Lemma get_url_paths_cases (w : World) (html : string) (p : pattern)
    (st : state) :
  get_url_paths w html p st =
    let st' := logged (HttpGet html (Some (chosen_user_agent w))) st in
    match http w html (Some (chosen_user_agent w)) with
    | Responds r =>
        if ok r
        then (Ret (Some (Re.findall (Re.dotall (compiled p)) (text r))), st')
        else (Raise (HTTPError (status_code r)), st')
    | ConnectionFails => (Raise ConnectionError, st')
    end.
Proof.
  unfold get_url_paths, requests_get, bind, emit. cbv zeta.
  destruct (http w html _) as [r|]; [|reflexivity].
  unfold ret at 1. unfold ok, raise_for_status.
  destruct ((400 <=? status_code r)%Z && (status_code r <? 600)%Z);
    reflexivity.
Qed.

(** ** C7: the candidate selected *)

(** C7.  For a non-empty list of filtered links, the link selected is the
    first of the list sorted in descending order; it is one of the links and
    every link is lexicographically below or equal to it.  The URL built
    from it is the link itself or the link after the listing URL.  The
    selection depends on the links only as a multiset, hence on the body of
    the listing page only: two fetches that read the same body select the
    same candidate. *)
Theorem selected_candidate_is_greatest (e : entry)
    (filtered_values : list string) :
  filtered_values <> [] ->
  let c := hd "" (sort_reverse filtered_values) in
  In c filtered_values /\
  (forall x, In x filtered_values -> String.leb x c = true) /\
  StronglySorted str_ge (sort_reverse filtered_values) /\
  Permutation filtered_values (sort_reverse filtered_values) /\
  (select_html e filtered_values = c \/
   select_html e filtered_values = url e +:+ c) /\
  (forall l, Permutation filtered_values l ->
     select_html e l = select_html e filtered_values) /\
  (forall w1 w2 st1 st2 l1 l2,
     fst (get_url_paths w1 (url e) (url_pattern e) st1) = Ret (Some l1) ->
     fst (get_url_paths w2 (url e) (url_pattern e) st2) = Ret (Some l2) ->
     (forall r1 r2,
        http w1 (url e) (Some (chosen_user_agent w1)) = Responds r1 ->
        http w2 (url e) (Some (chosen_user_agent w2)) = Responds r2 ->
        text r1 = text r2) ->
     select_html e (filter_links e l1) = select_html e (filter_links e l2)).
Proof.
  intros Hne c.
  destruct (sort_reverse_hd filtered_values Hne) as [Hin Hmax].
  repeat split.
  - exact Hin.
  - exact Hmax.
  - apply sort_reverse_sorted.
  - apply sort_reverse_perm.
  - unfold select_html. fold c.
    destruct (Re.re_search Patterns.https_re c); [now left|now right].
  - intros l Hp. unfold select_html.
    now rewrite (sort_reverse_hd_perm _ _ Hp).
  - intros w1 w2 st1 st2 l1 l2. rewrite !get_url_paths_cases. cbv zeta.
    destruct (http w1 _ _) as [r1|] eqn:E1; [|discriminate].
    destruct (http w2 _ _) as [r2|] eqn:E2;
      [|destruct (ok r1); discriminate].
    destruct (ok r1); [|discriminate]. destruct (ok r2); [|discriminate].
    simpl. intros [= <-] [= <-] Hbody.
    now rewrite (Hbody r1 r2 eq_refl eq_refl).
Qed.

Lemma selected_candidate_is_greatest_witness :
  let e := archlinux in
  let l := [ "archlinux-2024.01.01-x86_64.iso";
             "archlinux-2024.03.01-x86_64.iso";
             "archlinux-2024.02.15-x86_64.iso" ] in
  l <> [] /\
  hd "" (sort_reverse l) = "archlinux-2024.03.01-x86_64.iso" /\
  In (hd "" (sort_reverse l)) l.
Proof.
  intros e l.
  assert (l <> []) as Hne by (subst l; discriminate).
  split; [exact Hne|]. split; [reflexivity|].
  exact (proj1 (selected_candidate_is_greatest e l Hne)).
Defined.

(** ** The matcher *)

Section MatcherFacts.

(** Whether and where a match ends does not depend on the groups. *)
Lemma rep_greedy_end (cs : Re.charset) (s : string) :
  forall lo pos (k1 k2 : string -> nat -> option Re.found),
    (forall s' p', fst <$> k1 s' p' = fst <$> k2 s' p') ->
    fst <$> Re.rep_greedy cs lo s pos k1 = fst <$> Re.rep_greedy cs lo s pos k2.
Proof.
  induction s as [|c s IH]; intros lo pos k1 k2 Hk; simpl.
  - destruct (lo =? 0)%nat; [apply Hk|reflexivity].
  - destruct (Re.cs_mem cs c).
    + specialize (IH (Nat.pred lo) (S pos) k1 k2 Hk).
      destruct (Re.rep_greedy cs _ s _ k1), (Re.rep_greedy cs _ s _ k2);
        try discriminate; [exact IH|].
      destruct (lo =? 0)%nat; [apply Hk|reflexivity].
    + destruct (lo =? 0)%nat; [apply Hk|reflexivity].
Qed.

Lemma rep_lazy_end (cs : Re.charset) (s : string) :
  forall lo pos (k1 k2 : string -> nat -> option Re.found),
    (forall s' p', fst <$> k1 s' p' = fst <$> k2 s' p') ->
    fst <$> Re.rep_lazy cs lo s pos k1 = fst <$> Re.rep_lazy cs lo s pos k2.
Proof.
  induction s as [|c s IH]; intros lo pos k1 k2 Hk; simpl.
  - destruct (lo =? 0)%nat; [|reflexivity].
    specialize (Hk EmptyString pos).
    destruct (k1 _ _), (k2 _ _); try discriminate; [exact Hk|reflexivity].
  - specialize (IH (Nat.pred lo) (S pos) k1 k2 Hk).
    destruct (lo =? 0)%nat.
    + specialize (Hk (String c s) pos).
      destruct (k1 _ _), (k2 _ _); try discriminate; [exact Hk|].
      destruct (Re.cs_mem cs c); [exact IH|reflexivity].
    + destruct (Re.cs_mem cs c); [exact IH|reflexivity].
Qed.

Lemma matchk_end (r : Re.regex) :
  forall s pos g1 g2 (k1 k2 : string -> nat -> Re.caps -> option Re.found),
    (forall s' p' g1' g2', fst <$> k1 s' p' g1' = fst <$> k2 s' p' g2') ->
    fst <$> Re.matchk r s pos g1 k1 = fst <$> Re.matchk r s pos g2 k2.
Proof.
  induction r as [|cs|cs lo greedy|r1 IH1 r2 IH2|r1 IH1 r2 IH2|n r IH| |];
    intros s pos g1 g2 k1 k2 Hk; simpl.
  - apply Hk.
  - destruct s as [|c s]; [reflexivity|].
    destruct (Re.cs_mem cs c); [apply Hk|reflexivity].
  - destruct greedy; [apply rep_greedy_end|apply rep_lazy_end];
      intros; apply Hk.
  - apply IH1. intros. now apply IH2.
  - specialize (IH1 s pos g1 g2 k1 k2 Hk).
    specialize (IH2 s pos g1 g2 k1 k2 Hk).
    destruct (Re.matchk r1 s pos g1 k1), (Re.matchk r1 s pos g2 k2);
      try discriminate; [exact IH1|exact IH2].
  - apply IH. intros. apply Hk.
  - destruct (pos =? 0)%nat; [apply Hk|reflexivity].
  - destruct (Re.at_end s); [apply Hk|reflexivity].
Qed.

Lemma end_at_Grp (n : nat) (r : Re.regex) (s : string) (i : nat) :
  end_at (Re.Grp n r) s i = end_at r s i.
Proof.
  unfold end_at, Re.match_at, Re.attempt. simpl.
  apply matchk_end. reflexivity.
Qed.

Lemma end_at_Alt (r1 r2 : Re.regex) (s : string) (i : nat) :
  end_at (Re.Alt r1 r2) s i = or_else (end_at r1 s i) (end_at r2 s i).
Proof.
  unfold end_at, Re.match_at, Re.attempt. simpl.
  destruct (Re.matchk r1 _ _ _ _); reflexivity.
Qed.

(** [Str.drop] steps. *)
Lemma drop_S (c : ascii) (s : string) (j : nat) :
  Str.drop (S j) (String c s) = Str.drop j s.
Proof. reflexivity. Qed.

Lemma drop_0 (s : string) : Str.drop 0 s = s.
Proof. destruct s; reflexivity. Qed.

(** [search_from] returns the first index at which an attempt
    succeeds. *)
Lemma search_from_Some (r : Re.regex) (s : string) :
  forall pos i m,
    Re.search_from r s pos = Some (i, m) <->
    exists k, i = (pos + k)%nat /\ (k <= String.length s)%nat /\
      Re.attempt false r (Str.drop k s) (pos + k) = Some m /\
      forall j, (j < k)%nat ->
        Re.attempt false r (Str.drop j s) (pos + j) = None.
Proof.
  induction s as [|c s IH]; intros pos i m; simpl.
  - destruct (Re.attempt false r EmptyString pos) as [m0|] eqn:E.
    + split.
      * intros [= <- <-]. exists 0%nat. rewrite Nat.add_0_r.
        repeat split; [lia|exact E|lia].
      * intros (k & -> & Hk & Hm & _).
        assert (k = 0)%nat as -> by lia.
        rewrite Nat.add_0_r in *. simpl in Hm. congruence.
    + split; [discriminate|].
      intros (k & -> & Hk & Hm & _).
      assert (k = 0)%nat as -> by lia.
      rewrite Nat.add_0_r in Hm. simpl in Hm. congruence.
  - destruct (Re.attempt false r (String c s) pos) as [m0|] eqn:E.
    + split.
      * intros [= <- <-]. exists 0%nat. rewrite Nat.add_0_r.
        repeat split; [lia|exact E|lia].
      * intros (k & -> & Hk & Hm & Hfirst).
        destruct k as [|k].
        -- rewrite Nat.add_0_r in *. simpl in Hm. congruence.
        -- specialize (Hfirst 0%nat ltac:(lia)).
           rewrite Nat.add_0_r in Hfirst. simpl in Hfirst. congruence.
    + rewrite IH. split.
      * intros (k & -> & Hk & Hm & Hfirst). exists (S k).
        repeat split; [lia|lia|..].
        -- rewrite drop_S. now replace (pos + S k)%nat with (S pos + k)%nat by lia.
        -- intros [|j] Hj.
           ++ now rewrite Nat.add_0_r.
           ++ rewrite drop_S.
              replace (pos + S j)%nat with (S pos + j)%nat by lia.
              apply Hfirst. lia.
      * intros (k & -> & Hk & Hm & Hfirst).
        destruct k as [|k].
        -- rewrite Nat.add_0_r in Hm. simpl in Hm. congruence.
        -- exists k. repeat split; [lia|lia|..].
           ++ rewrite drop_S in Hm.
              now replace (S pos + k)%nat with (pos + S k)%nat by lia.
           ++ intros j Hj. specialize (Hfirst (S j) ltac:(lia)).
              rewrite drop_S in Hfirst.
              now replace (S pos + j)%nat with (pos + S j)%nat by lia.
Qed.

Lemma search_from_None (r : Re.regex) (s : string) :
  forall pos,
    Re.search_from r s pos = None <->
    forall j, (j <= String.length s)%nat ->
      Re.attempt false r (Str.drop j s) (pos + j) = None.
Proof.
  induction s as [|c s IH]; intros pos; simpl.
  - destruct (Re.attempt false r EmptyString pos) as [m0|] eqn:E.
    + split; [discriminate|]. intros H. specialize (H 0%nat ltac:(lia)).
      rewrite Nat.add_0_r in H. simpl in H. congruence.
    + split; [|reflexivity]. intros _ j Hj.
      assert (j = 0)%nat as -> by lia. now rewrite Nat.add_0_r.
  - destruct (Re.attempt false r (String c s) pos) as [m0|] eqn:E.
    + split; [discriminate|]. intros H. specialize (H 0%nat ltac:(lia)).
      rewrite Nat.add_0_r in H. simpl in H. congruence.
    + rewrite IH. split.
      * intros H [|j] Hj; [now rewrite Nat.add_0_r|].
        rewrite drop_S. replace (pos + S j)%nat with (S pos + j)%nat by lia.
        apply H. lia.
      * intros H j Hj. specialize (H (S j) ltac:(lia)).
        rewrite drop_S in H.
        now replace (S pos + j)%nat with (pos + S j)%nat by lia.
Qed.

(** [re.search] in terms of the matches at each index. *)
Lemma re_search_Some (r : Re.regex) (s : string) (i : nat) (m : Re.found) :
  Re.re_search r s = Some (i, m) <->
  (i <= String.length s)%nat /\ Re.match_at r s i = Some m /\
  forall j, (j < i)%nat -> Re.match_at r s j = None.
Proof.
  unfold Re.re_search, Re.match_at. rewrite search_from_Some. simpl.
  split.
  - intros (k & -> & Hk & Hm & Hfirst). auto.
  - intros (Hk & Hm & Hfirst). exists i. auto.
Qed.

Lemma re_search_None (r : Re.regex) (s : string) :
  Re.re_search r s = None <->
  forall j, (j <= String.length s)%nat -> Re.match_at r s j = None.
Proof. unfold Re.re_search, Re.match_at. now rewrite search_from_None. Qed.

(** [re.match] is the match at index 0. *)
Lemma re_match_at_0 (r : Re.regex) (s : string) :
  Re.re_match r s = Re.match_at r s 0.
Proof. unfold Re.re_match, Re.match_at. now rewrite drop_0. Qed.

(** What [re.match] accepts, [re.search] accepts. *)
Lemma re_match_search (r : Re.regex) (s : string) (m : Re.found) :
  Re.re_match r s = Some m -> Re.re_search r s = Some (0%nat, m).
Proof.
  intros H. apply re_search_Some. rewrite <- re_match_at_0.
  repeat split; [lia|exact H|lia].
Qed.

End MatcherFacts.

(** ** The matcher against the language *)

Section MatcherSound.

Context {R : Type}.

(** What the matcher finds is in the language. *)
Lemma rep_greedy_sound (cs : Re.charset) (s : string) :
  forall lo pos (k : string -> nat -> option R) x,
    Re.rep_greedy cs lo s pos k = Some x ->
    exists u t,
      s = u +:+ t /\ all_in cs u = true /\ (lo <= String.length u)%nat /\
      k t (pos + String.length u)%nat = Some x.
Proof.
  induction s as [|c s IH]; intros lo pos k x H; cbn [Re.rep_greedy] in H.
  - destruct (lo =? 0)%nat eqn:Hlo; [|discriminate].
    apply Nat.eqb_eq in Hlo as ->.
    exists EmptyString, EmptyString. rewrite Nat.add_0_r. auto.
  - assert ((lo =? 0)%nat = true -> k (String c s) pos = Some x ->
            exists u t,
              String c s = u +:+ t /\ all_in cs u = true /\
              (lo <= String.length u)%nat /\
              k t (pos + String.length u)%nat = Some x) as Hstop.
    { intros Hlo Hk. apply Nat.eqb_eq in Hlo as ->.
      exists EmptyString, (String c s). rewrite Nat.add_0_r. auto. }
    destruct (Re.cs_mem cs c) eqn:Hc.
    + destruct (Re.rep_greedy cs (Nat.pred lo) s (S pos) k) as [y|] eqn:E.
      * injection H as ->.
        destruct (IH _ _ _ _ E) as (u & t & -> & Hu & Hlen & Hk).
        exists (String c u), t. rewrite string_app_cons. cbn [all_in String.length].
        rewrite Hc, Hu. repeat split; [lia|].
        now replace (pos + S (String.length u))%nat
          with (S pos + String.length u)%nat by lia.
      * destruct (lo =? 0)%nat eqn:Hlo; [now apply Hstop|discriminate].
    + destruct (lo =? 0)%nat eqn:Hlo; [now apply Hstop|discriminate].
Qed.

Lemma rep_lazy_sound (cs : Re.charset) (s : string) :
  forall lo pos (k : string -> nat -> option R) x,
    Re.rep_lazy cs lo s pos k = Some x ->
    exists u t,
      s = u +:+ t /\ all_in cs u = true /\ (lo <= String.length u)%nat /\
      k t (pos + String.length u)%nat = Some x.
Proof.
  induction s as [|c s IH]; intros lo pos k x H; cbn [Re.rep_lazy] in H.
  - destruct (lo =? 0)%nat eqn:Hlo; [|discriminate].
    apply Nat.eqb_eq in Hlo as ->.
    destruct (k EmptyString pos) as [y|] eqn:Hk; [|discriminate].
    injection H as ->.
    exists EmptyString, EmptyString. rewrite Nat.add_0_r. auto.
  - assert (Re.cs_mem cs c = true ->
            Re.rep_lazy cs (Nat.pred lo) s (S pos) k = Some x ->
            exists u t,
              String c s = u +:+ t /\ all_in cs u = true /\
              (lo <= String.length u)%nat /\
              k t (pos + String.length u)%nat = Some x) as Hmore.
    { intros Hc E.
      destruct (IH _ _ _ _ E) as (u & t & -> & Hu & Hlen & Hk).
      exists (String c u), t. rewrite string_app_cons. cbn [all_in String.length].
      rewrite Hc, Hu. repeat split; [lia|].
      now replace (pos + S (String.length u))%nat
        with (S pos + String.length u)%nat by lia. }
    destruct (lo =? 0)%nat eqn:Hlo.
    + apply Nat.eqb_eq in Hlo as ->.
      destruct (k (String c s) pos) as [y|] eqn:Hk.
      * injection H as ->.
        exists EmptyString, (String c s). rewrite Nat.add_0_r. auto.
      * destruct (Re.cs_mem cs c) eqn:Hc; [now apply Hmore|discriminate].
    + destruct (Re.cs_mem cs c) eqn:Hc; [now apply Hmore|discriminate].
Qed.

Lemma matchk_sound (r : Re.regex) :
  forall s pos g (k : string -> nat -> Re.caps -> option R) x,
    Re.matchk r s pos g k = Some x ->
    exists u t g',
      s = u +:+ t /\ matches r pos u t /\
      k t (pos + String.length u)%nat g' = Some x.
Proof.
  induction r as [|cs|cs lo greedy|r1 IH1 r2 IH2|r1 IH1 r2 IH2|n r IH| |];
    intros s pos g k x H; cbn [Re.matchk] in H.
  - exists EmptyString, s, g. rewrite Nat.add_0_r.
    repeat split; [constructor|exact H].
  - destruct s as [|c s]; [discriminate|].
    destruct (Re.cs_mem cs c) eqn:Hc; [|discriminate].
    exists (String c EmptyString), s, g.
    replace (pos + String.length (String c EmptyString))%nat with (S pos)
      by (cbn; lia).
    repeat split; [now constructor|exact H].
  - assert (exists u t,
              s = u +:+ t /\ all_in cs u = true /\
              (lo <= String.length u)%nat /\
              k t (pos + String.length u)%nat g = Some x)
      as (u & t & -> & Hu & Hlen & Hk).
    { destruct greedy;
        [apply rep_greedy_sound in H|apply rep_lazy_sound in H]; exact H. }
    exists u, t, g. repeat split; [now constructor|exact Hk].
  - destruct (IH1 _ _ _ _ _ H) as (u1 & t1 & g1 & -> & H1 & Hk1).
    destruct (IH2 _ _ _ _ _ Hk1) as (u2 & t & g2 & -> & H2 & Hk2).
    exists (u1 +:+ u2), t, g2. rewrite string_app_assoc.
    repeat split; [now constructor|].
    now rewrite string_length_app, Nat.add_assoc.
  - destruct (Re.matchk r1 s pos g k) as [y|] eqn:E.
    + injection H as ->.
      destruct (IH1 _ _ _ _ _ E) as (u & t & g' & -> & H1 & Hk).
      exists u, t, g'. repeat split; [now apply M_alt_l|exact Hk].
    + destruct (IH2 _ _ _ _ _ H) as (u & t & g' & -> & H2 & Hk).
      exists u, t, g'. repeat split; [now apply M_alt_r|exact Hk].
  - destruct (IH _ _ _ _ _ H) as (u & t & g' & -> & H1 & Hk).
    eexists u, t, _. repeat split; [now constructor|exact Hk].
  - destruct (pos =? 0)%nat eqn:Hp; [|discriminate].
    apply Nat.eqb_eq in Hp as ->.
    exists EmptyString, s, g. repeat split; [constructor|exact H].
  - destruct (Re.at_end s) eqn:He; [|discriminate].
    exists EmptyString, s, g. rewrite Nat.add_0_r.
    repeat split; [now constructor|exact H].
Qed.

(** What is in the language, the matcher does not miss. *)
Lemma rep_greedy_complete (cs : Re.charset) (u : string) :
  forall lo pos t (k : string -> nat -> option R),
    all_in cs u = true -> (lo <= String.length u)%nat ->
    k t (pos + String.length u)%nat <> None ->
    Re.rep_greedy cs lo (u +:+ t) pos k <> None.
Proof.
  induction u as [|c u IH]; intros lo pos t k Hu Hlen Hk.
  - rewrite string_app_nil_l. cbn [String.length] in *.
    rewrite Nat.add_0_r in Hk. assert (lo = 0)%nat as -> by lia.
    destruct t as [|c t]; cbn [Re.rep_greedy Nat.eqb]; [exact Hk|].
    destruct (Re.cs_mem cs c); [|exact Hk].
    now destruct (Re.rep_greedy cs _ t _ k).
  - rewrite string_app_cons. cbn [all_in String.length] in *.
    apply andb_true_iff in Hu as [Hc Hu]. cbn [Re.rep_greedy]. rewrite Hc.
    assert (Re.rep_greedy cs (Nat.pred lo) (u +:+ t) (S pos) k <> None) as H.
    { apply IH; [exact Hu|lia|].
      now replace (S pos + String.length u)%nat
        with (pos + S (String.length u))%nat by lia. }
    now destruct (Re.rep_greedy cs _ (u +:+ t) _ k).
Qed.

Lemma rep_lazy_complete (cs : Re.charset) (u : string) :
  forall lo pos t (k : string -> nat -> option R),
    all_in cs u = true -> (lo <= String.length u)%nat ->
    k t (pos + String.length u)%nat <> None ->
    Re.rep_lazy cs lo (u +:+ t) pos k <> None.
Proof.
  induction u as [|c u IH]; intros lo pos t k Hu Hlen Hk.
  - rewrite string_app_nil_l. cbn [String.length] in *.
    rewrite Nat.add_0_r in Hk. assert (lo = 0)%nat as -> by lia.
    destruct t as [|c t]; cbn [Re.rep_lazy Nat.eqb];
      now destruct (k _ pos).
  - rewrite string_app_cons. cbn [all_in String.length] in *.
    apply andb_true_iff in Hu as [Hc Hu]. cbn [Re.rep_lazy]. rewrite Hc.
    assert (Re.rep_lazy cs (Nat.pred lo) (u +:+ t) (S pos) k <> None) as H.
    { apply IH; [exact Hu|lia|].
      now replace (S pos + String.length u)%nat
        with (pos + S (String.length u))%nat by lia. }
    destruct (lo =? 0)%nat; [|exact H].
    now destruct (k (String c (u +:+ t)) pos).
Qed.

Lemma matchk_complete (r : Re.regex) (pos : nat) (u t : string) :
  matches r pos u t ->
  forall g (k : string -> nat -> Re.caps -> option R),
    (forall g', k t (pos + String.length u)%nat g' <> None) ->
    Re.matchk r (u +:+ t) pos g k <> None.
Proof.
  induction 1 as [pos t|cs c pos t Hc|cs lo greedy pos u t Hu Hlen
                 |r1 r2 pos u1 u2 t _ IH1 _ IH2|r1 r2 pos u t _ IH
                 |r1 r2 pos u t _ IH|n r pos u t _ IH|t|pos t He];
    intros g k Hk; cbn [Re.matchk].
  - rewrite string_app_nil_l. specialize (Hk g).
    now rewrite Nat.add_0_r in Hk.
  - rewrite string_app_cons, string_app_nil_l, Hc. specialize (Hk g).
    now replace (pos + String.length (String c EmptyString))%nat
      with (S pos) in Hk by (cbn; lia).
  - destruct greedy; [apply rep_greedy_complete|apply rep_lazy_complete];
      auto.
  - rewrite string_app_assoc. apply IH1. intros g1. apply IH2. intros g2.
    specialize (Hk g2).
    now rewrite string_length_app, Nat.add_assoc in Hk.
  - specialize (IH g k Hk). now destruct (Re.matchk r1 _ _ _ _).
  - specialize (IH g k Hk). now destruct (Re.matchk r1 _ _ _ _).
  - apply IH. intros g'. apply Hk.
  - rewrite string_app_nil_l. apply Hk.
  - rewrite string_app_nil_l, He. specialize (Hk g).
    now rewrite Nat.add_0_r in Hk.
Qed.

End MatcherSound.

Section AttemptFacts.

(** An attempt succeeds exactly on the language, and ends where the text
    it matched ends. *)
Lemma attempt_sound (r : Re.regex) (s : string) (pos e : nat) (g : Re.caps) :
  Re.attempt false r s pos = Some (e, g) ->
  exists u t,
    s = u +:+ t /\ matches r pos u t /\ e = (pos + String.length u)%nat.
Proof.
  unfold Re.attempt. intros H.
  destruct (matchk_sound _ _ _ _ _ _ H) as (u & t & g' & -> & Hm & Hk).
  cbn in Hk. injection Hk as <- _. now exists u, t.
Qed.

Lemma attempt_complete (r : Re.regex) (pos : nat) (u t : string) :
  matches r pos u t -> is_Some (Re.attempt false r (u +:+ t) pos).
Proof.
  intros Hm. unfold Re.attempt.
  destruct (Re.matchk r (u +:+ t) pos [] _) as [x|] eqn:E; [now exists x|].
  exfalso. revert E. now apply matchk_complete.
Qed.

Lemma match_at_occurs (r : Re.regex) (s : string) (i : nat) :
  is_Some (Re.match_at r s i) <-> occurs_at r s i.
Proof.
  unfold Re.match_at, occurs_at. split.
  - intros [[e g] H].
    destruct (attempt_sound _ _ _ _ _ H) as (u & t & E & Hm & _).
    now exists u, t.
  - intros (u & t & -> & Hm). now apply attempt_complete.
Qed.

(** The text between two indices. *)
Lemma substring_app (u t : string) :
  String.substring 0 (String.length u) (u +:+ t) = u.
Proof.
  induction u as [|c u IH].
  - rewrite string_app_nil_l. now destruct t.
  - rewrite string_app_cons. cbn [String.length String.substring].
    now rewrite IH.
Qed.

Lemma substring_drop (i n : nat) (s : string) :
  String.substring i n s = String.substring 0 n (Str.drop i s).
Proof.
  revert s. induction i as [|i IH]; intros s.
  - now rewrite drop_0.
  - destruct s as [|c s]; [now destruct n|].
    rewrite drop_S. cbn [String.substring]. apply IH.
Qed.

Lemma slice_matched (i : nat) (s u t : string) :
  Str.drop i s = u +:+ t ->
  Str.slice i (i + String.length u) s = u.
Proof.
  intros H. unfold Str.slice.
  replace (i + String.length u - i)%nat with (String.length u) by lia.
  now rewrite substring_drop, H, substring_app.
Qed.

(** The text of a match is in the language of the pattern. *)
Lemma text_at_sound (p : Re.regex) (s : string) (i : nat) (v : string) :
  text_at p s i = Some v ->
  exists t, Str.drop i s = v +:+ t /\ matches p i v t.
Proof.
  unfold text_at, end_at, Re.match_at.
  destruct (Re.attempt false p (Str.drop i s) i) as [[e g]|] eqn:E;
    [|discriminate].
  cbn. intros [= <-].
  destruct (attempt_sound _ _ _ _ _ E) as (u & t & Hs & Hm & ->).
  exists t. now rewrite (slice_matched _ _ _ _ Hs).
Qed.

End AttemptFacts.

(** ** C3: the version read from a file name *)

Section VersionFacts.

Lemma fmap_or_else {A B} (f : A -> B) (o1 o2 : option A) :
  f <$> or_else o1 o2 = or_else (f <$> o1) (f <$> o2).
Proof. destruct o1; reflexivity. Qed.

(** At one index the alternation tries the three patterns in order. *)
Lemma version_re_at (s : string) (i : nat) :
  (fun e => Str.slice i e s) <$> end_at Patterns.version_re s i
  = version_at s i.
Proof.
  unfold Patterns.version_re, version_at, text_at.
  rewrite end_at_Grp, end_at_Alt, end_at_Grp, end_at_Alt, !end_at_Grp.
  now rewrite !fmap_or_else.
Qed.

Lemma version_at_None (s : string) (i : nat) :
  version_at s i = None <-> Re.match_at Patterns.version_re s i = None.
Proof.
  rewrite <- version_re_at. unfold end_at.
  destruct (Re.match_at Patterns.version_re s i); simpl; split;
    congruence.
Qed.

Lemma version_of_Some (s v : string) :
  version_of s = Some v <->
  exists i, (i <= String.length s)%nat /\ version_at s i = Some v /\
    forall j, (j < i)%nat -> version_at s j = None.
Proof.
  unfold version_of. split.
  - destruct (Re.re_search Patterns.version_re s) as [[i [e g]]|] eqn:E;
      [|discriminate].
    intros [= <-].
    destruct (proj1 (re_search_Some _ _ _ _) E) as (Hi & Hm & Hfirst).
    exists i. repeat split; [exact Hi| |].
    + rewrite <- version_re_at. unfold end_at. now rewrite Hm.
    + intros j Hj. apply version_at_None. now apply Hfirst.
  - intros (i & Hi & Hv & Hfirst).
    rewrite <- version_re_at in Hv. unfold end_at in Hv.
    destruct (Re.match_at Patterns.version_re s i) as [[e g]|] eqn:Hm;
      [|discriminate].
    simpl in Hv. injection Hv as <-.
    assert (Re.re_search Patterns.version_re s = Some (i, (e, g))) as ->.
    { apply re_search_Some. repeat split; [exact Hi|exact Hm|].
      intros j Hj. apply version_at_None. now apply Hfirst. }
    reflexivity.
Qed.

Lemma version_of_None (s : string) :
  version_of s = None <->
  forall i, (i <= String.length s)%nat -> version_at s i = None.
Proof.
  unfold version_of.
  destruct (Re.re_search Patterns.version_re s) as [m|] eqn:E.
  - split; [discriminate|]. intros H. destruct m as [i [e g]].
    destruct (proj1 (re_search_Some _ _ _ _) E) as (Hi & Hm & _).
    apply H, version_at_None in Hi. congruence.
  - split; [|reflexivity]. intros _ i Hi.
    apply version_at_None. now apply re_search_None.
Qed.

Lemma or_else_None {A} (o1 o2 : option A) :
  or_else o1 o2 = None <-> o1 = None /\ o2 = None.
Proof.
  destruct o1; simpl; split; intros H; try discriminate;
    try (destruct H; congruence); auto.
Qed.

End VersionFacts.

Lemma text_at_None (p : Re.regex) (s : string) (i : nat) :
  text_at p s i = None <-> ~ occurs_at p s i.
Proof.
  rewrite <- match_at_occurs. unfold text_at, end_at.
  destruct (Re.match_at p s i) as [m|]; cbn; split.
  - discriminate.
  - intros H. destruct H. now exists m.
  - intros _ [m H]. discriminate.
  - reflexivity.
Qed.

(** C3, as the code has it.  [version_of] returns the text matched at the
    leftmost index of the file name at which one of the three patterns
    matches; at that index the first of MAJOR.MINOR.PATCH, MAJOR.MINOR and
    integer-then-T that matches there gives the text, which is in the
    language of one of the three patterns.  It has no result (the
    AttributeError of the source) exactly when none of the three patterns
    matches at any index.  The four examples of the specification hold. *)
Theorem version_of_leftmost_then_precedence (fileName : string) :
  (forall v,
     version_of fileName = Some v <->
     exists i, (i <= String.length fileName)%nat /\
       version_at fileName i = Some v /\
       forall j, (j < i)%nat -> version_at fileName j = None) /\
  (forall v,
     version_of fileName = Some v ->
     exists i t,
       Str.drop i fileName = v +:+ t /\
       (matches Patterns.major_minor_patch i v t \/
        matches Patterns.major_minor i v t \/
        matches Patterns.date_T i v t)) /\
  (version_of fileName = None <->
   forall i, (i <= String.length fileName)%nat ->
     ~ occurs_at Patterns.major_minor_patch fileName i /\
     ~ occurs_at Patterns.major_minor fileName i /\
     ~ occurs_at Patterns.date_T fileName i) /\
  version_of "archlinux-2024.04.01-x86_64.iso" = Some "2024.04.01" /\
  version_of "distro-24.04-amd64.iso" = Some "24.04" /\
  version_of "image-20240401T-x86.iso" = Some "20240401T" /\
  version_of "noversionhere.iso" = None.
Proof.
  split; [intros v; apply version_of_Some|].
  split.
  { intros v Hv. apply version_of_Some in Hv as (i & _ & Hv & _).
    exists i. unfold version_at in Hv.
    destruct (text_at Patterns.major_minor_patch fileName i) as [v1|] eqn:E1.
    { injection Hv as ->.
      destruct (text_at_sound _ _ _ _ E1) as (t & Hd & Hm). eauto. }
    destruct (text_at Patterns.major_minor fileName i) as [v2|] eqn:E2.
    { injection Hv as ->.
      destruct (text_at_sound _ _ _ _ E2) as (t & Hd & Hm). eauto. }
    cbn [or_else] in Hv.
    destruct (text_at_sound _ _ _ _ Hv) as (t & Hd & Hm). eauto. }
  split; [|repeat split; vm_compute; reflexivity].
  rewrite version_of_None. unfold version_at.
  split; intros H i Hi; specialize (H i Hi).
  - destruct (proj1 (or_else_None _ _) H) as [H1 H'].
    destruct (proj1 (or_else_None _ _) H') as [H2 H3].
    now rewrite <- !text_at_None.
  - rewrite <- !text_at_None in H. destruct H as (H1 & H2 & H3).
    now rewrite H1, H2, H3.
Qed.

(** C3 as the specification words it fails: in this file name MAJOR.MINOR
    matches at index 13 and MAJOR.MINOR.PATCH only at index 30; the code
    returns the former, the precedence rule the latter. *)
Lemma version_of_not_by_precedence :
  version_of "manjaro-xfce-23.1-240113-linux6.6.10.iso" = Some "23.1" /\
  extract_by_precedence "manjaro-xfce-23.1-240113-linux6.6.10.iso"
    = Some "6.6.10" /\
  ~ (forall fileName, version_of fileName = extract_by_precedence fileName).
Proof.
  split; [vm_compute; reflexivity|]. split; [vm_compute; reflexivity|].
  intros H.
  specialize (H "manjaro-xfce-23.1-240113-linux6.6.10.iso").
  vm_compute in H. discriminate.
Qed.

(** ** C5: the filter on the links *)

Section FilterFacts.

Lemma filter_sublist {A} (f : A -> bool) (l : list A) :
  sublist (List.filter f l) l.
Proof.
  induction l as [|x l IH]; simpl; [constructor|].
  destruct (f x); now constructor.
Qed.

(** [re.search] succeeds exactly when the pattern matches at some
    index. *)
Lemma re_search_anywhere (r : Re.regex) (s : string) :
  is_Some (Re.re_search r s) <->
  exists i, (i <= String.length s)%nat /\ is_Some (Re.match_at r s i).
Proof.
  split.
  - intros [[i m] H]. destruct (proj1 (re_search_Some _ _ _ _) H) as (Hi & Hm & _).
    exists i. split; [exact Hi|]. now exists m.
  - intros (i & Hi & Hm).
    destruct (Re.re_search r s) as [x|] eqn:E; [now exists x|].
    rewrite (proj1 (re_search_None r s) E i Hi) in Hm.
    now destruct Hm.
Qed.

End FilterFacts.

(** C5, as the code has it.  The filter uses [re.match]: it keeps, in the
    order of the listing, exactly the links of which the filter pattern of
    the entry matches a prefix, that is, in which the pattern matches from
    index 0.  [re.search] would accept a match from any index. *)
Theorem filter_links_keeps_matches_at_start (e : entry)
    (result : list string) :
  (forall v,
     In v (filter_links e result) <->
     In v result /\ occurs_at (compiled (filter_value e)) v 0) /\
  sublist (filter_links e result) result /\
  (forall v,
     is_Some (Re.re_search (compiled (filter_value e)) v) <->
     exists i, (i <= String.length v)%nat /\
       occurs_at (compiled (filter_value e)) v i).
Proof.
  split; [|split].
  - intros v. unfold filter_links.
    now rewrite filter_In, bool_decide_eq_true, re_match_at_0, match_at_occurs.
  - apply filter_sublist.
  - intros v. rewrite re_search_anywhere.
    split; intros (i & Hi & H); exists i; split; try exact Hi;
      now apply match_at_occurs.
Qed.

(** C5 as the specification words it fails: the pattern of the archlinux
    entry matches in this link from index 12, and the filter drops the
    link. *)
Lemma filter_links_not_anywhere :
  let v := "/iso/latest/archlinux-2024.04.01-x86_64.iso" in
  filter_links archlinux [v] = [] /\
  occurs_at (compiled (filter_value archlinux)) v 12 /\
  ~ (forall e result v,
       In v (filter_links e result) <->
       In v result /\
       exists i, (i <= String.length v)%nat /\
         occurs_at (compiled (filter_value e)) v i).
Proof.
  intros v.
  assert (occurs_at (compiled (filter_value archlinux)) v 12) as Hocc.
  { apply match_at_occurs. vm_compute. eexists. reflexivity. }
  split; [vm_compute; reflexivity|]. split; [exact Hocc|].
  intros H. specialize (H archlinux [v] v).
  assert (In v (filter_links archlinux [v])) as Hin.
  { apply H. split; [now left|]. exists 12%nat.
    split; [vm_compute; lia|exact Hocc]. }
  vm_compute in Hin. exact Hin.
Qed.

(** Runs the monad's own operations, leaving the file system and the
    oracles of the world as they are. *)
Ltac run_monad :=
  cbv beta iota zeta delta
    [bind ret raise try_except_else is_file get_fs put_fs with_fs emit print
     logged];
  cbn [fs trace cp_error].

(** ** The download *)

Section DownloadFacts.

Lemma with_fs_id (st : state) : with_fs (fs st) st = st.
Proof. now destruct st. Qed.

(** The chunks are appended to a regular file in the order they come. *)
Lemma write_chunks_regular (image : string) (chunks : list string) :
  forall st old,
    fs st !! image = Some (Regular old) ->
    for_each chunks (fun data => write image data) st
    = (Ret tt,
       with_fs (<[image := Regular (old +:+ String.concat "" chunks)]> (fs st))
         st).
Proof.
  induction chunks as [|c chunks IH]; intros st old Hold.
  - cbn. rewrite string_app_nil_r, insert_id by exact Hold.
    now rewrite with_fs_id.
  - cbn [for_each]. unfold bind at 1. unfold write at 1.
    unfold bind at 1, get_fs. rewrite Hold. unfold put_fs.
    rewrite (IH _ (old +:+ c)) by apply lookup_insert_eq.
    unfold with_fs. cbn [fs trace cp_error].
    now rewrite insert_insert_eq, concat_cons, string_app_assoc.
Qed.

(** Written to something that is not a regular file, they are lost. *)
Lemma write_chunks_special (image : string) (chunks : list string) :
  forall st,
    fs st !! image = Some Special ->
    for_each chunks (fun data => write image data) st = (Ret tt, st).
Proof.
  induction chunks as [|c chunks IH]; intros st Hsp; [reflexivity|].
  cbn [for_each]. unfold bind at 1. unfold write at 1.
  unfold bind at 1, get_fs. rewrite Hsp. unfold ret at 1.
  now apply IH.
Qed.

(** What lines 283-294 do, by the answer of the server and by what the
    destination names. *)
Lemma download_fetch_cases (w : World) (image url : string) (st : state) :
  download_fetch w image url st =
    let st1 := logged (HttpGet url None) st in
    match http w url None with
    | ConnectionFails => (Raise ConnectionError, st1)
    | Responds r =>
        if ok r then
          match fs st !! image with
          | None | Some (Regular _) =>
              (Ret (Some (false, Some (downloaded image))),
               with_fs (<[image :=
                            Regular (String.concat "" (iter_content r))]>
                          (fs st)) st1)
          | Some Special => (Ret None, st1)
          | Some Directory => (Raise (IsADirectoryError image), st1)
          end
        else (Raise (HTTPError (status_code r)), st1)
    end.
Proof.
  unfold download_fetch, requests_get. cbv zeta.
  unfold bind at 1. unfold bind at 1. unfold emit at 1.
  destruct (http w url None) as [r|]; [|reflexivity].
  unfold ret at 1. unfold ok, raise_for_status.
  destruct ((400 <=? status_code r)%Z && (status_code r <? 600)%Z);
    [reflexivity|].
  cbn [negb]. unfold bind at 1. unfold open_wb at 1.
  unfold bind at 1, get_fs at 1.
  change (fs (logged (HttpGet url None) st)) with (fs st).
  assert (forall f,
            bind (for_each (iter_content r) (fun data => write image data))
              (fun _ => present <- is_file image ;;
                 if present
                 then ret (Some (false, Some (downloaded image)))
                 else ret None)
              (with_fs (<[image := Regular ""]> f)
                 (logged (HttpGet url None) st))
            = (Ret (Some (false, Some (downloaded image))),
               with_fs (<[image :=
                            Regular (String.concat "" (iter_content r))]> f)
                 (logged (HttpGet url None) st))) as Hreg.
  { intros f. unfold bind at 1.
    rewrite (write_chunks_regular image _ _ "")
      by (cbn; apply lookup_insert_eq).
    run_monad.
    now rewrite lookup_insert_eq, insert_insert_eq, string_app_nil_l. }
  destruct (fs st !! image) as [[old| |]|] eqn:E.
  - unfold put_fs. apply Hreg.
  - unfold ret at 1. unfold bind at 1.
    rewrite write_chunks_special by exact E.
    run_monad. now rewrite E.
  - reflexivity.
  - unfold put_fs. apply Hreg.
Qed.

(** With [force] unset and a regular file at the destination nothing
    happens at all. *)
Lemma download_file_present (w : World) (image url : string) (st : state)
    (data : string) :
  fs st !! image = Some (Regular data) ->
  download_file w false image url st
  = (Ret (Some (false, Some (already_exist image))), st).
Proof.
  intros H. unfold download_file. run_monad. now rewrite H.
Qed.

(** With [force] unset and no regular file there the request is made. *)
Lemma download_file_absent (w : World) (image url : string) (st : state) :
  (forall data, fs st !! image <> Some (Regular data)) ->
  download_file w false image url st = download_fetch w image url st.
Proof.
  intros H. unfold download_file. unfold bind at 1. unfold is_file.
  run_monad.
  destruct (fs st !! image) as [[data| |]|] eqn:E; try reflexivity.
  now destruct (H data).
Qed.

(** With [force] set the destination is unlinked, then the request is
    made. *)
Lemma download_file_forced (w : World) (image url : string) (st : state) :
  fs st !! image <> Some Directory ->
  download_file w true image url st
  = download_fetch w image url (with_fs (delete image (fs st)) st).
Proof.
  intros H. unfold download_file, try_except_else, unlink_missing_ok.
  unfold bind at 1, get_fs.
  destruct (fs st !! image) as [[data| |]|] eqn:E; try reflexivity.
  - now destruct H.
  - unfold ret. rewrite delete_id by exact E. now rewrite with_fs_id.
Qed.

End DownloadFacts.

Lemma http_gets_logged_get (url : string) (ua : option string) (t : list event) :
  http_gets (t ++ [HttpGet url ua]) = S (http_gets t).
Proof.
  induction t as [|e t IH]; [reflexivity|].
  destruct e; cbn; now rewrite IH.
Qed.

Lemma ok_false_iff (r : Response) :
  ok r = false <-> (400 <= status_code r < 600)%Z.
Proof.
  unfold ok. rewrite negb_false_iff, andb_true_iff, Z.leb_le, Z.ltb_lt.
  reflexivity.
Qed.

(** ** C6: a second download does nothing *)

(** C6.  With [force] unset and a regular file at the destination,
    [download_file] returns the already-exist pair and leaves the whole
    state as it was: no request is logged and the file system is the same.
    Hence, starting without a file and with a server that answers with
    success, two calls in a row log exactly one request: the first writes
    the body, the second returns the already-exist pair and changes
    nothing.  Whatever the start, once a call has returned a pair the next
    call returns the already-exist pair and logs no request. *)
Theorem download_file_idempotent (w : World) (image url : string)
    (st : state) :
  (forall data,
     fs st !! image = Some (Regular data) ->
     download_file w false image url st
     = (Ret (Some (false, Some (already_exist image))), st)) /\
  (forall r,
     fs st !! image = None ->
     http w url None = Responds r ->
     ok r = true ->
     exists st1,
       download_file w false image url st
       = (Ret (Some (false, Some (downloaded image))), st1) /\
       fs st1 !! image
       = Some (Regular (String.concat "" (iter_content r))) /\
       download_file w false image url st1
       = (Ret (Some (false, Some (already_exist image))), st1) /\
       http_gets (trace st1) = S (http_gets (trace st))) /\
  (forall pair st1,
     download_file w false image url st = (Ret (Some pair), st1) ->
     download_file w false image url st1
     = (Ret (Some (false, Some (already_exist image))), st1) /\
     (http_gets (trace st1) <= S (http_gets (trace st)))%nat).
Proof.
  assert (forall f, fs (with_fs f (logged (HttpGet url None) st)) = f)
    as Hfs by reflexivity.
  split; [|split].
  - intros data. apply download_file_present.
  - intros r Habs Hr Hok.
    rewrite download_file_absent by (intros data; congruence).
    rewrite download_fetch_cases. cbv zeta. rewrite Hr, Hok, Habs.
    eexists. split; [reflexivity|].
    split; [rewrite Hfs; apply lookup_insert_eq|].
    split.
    + eapply download_file_present. rewrite Hfs. apply lookup_insert_eq.
    + apply http_gets_logged_get.
  - intros pair st1.
    destruct (fs st !! image) as [[data| |]|] eqn:E.
    + rewrite (download_file_present _ _ _ _ _ E). intros [= <- <-].
      split; [now apply (download_file_present _ _ _ _ data)|lia].
    + rewrite download_file_absent by (intros data; congruence).
      rewrite download_fetch_cases. cbv zeta. rewrite E.
      destruct (http w url None) as [r|]; [|discriminate].
      destruct (ok r); discriminate.
    + rewrite download_file_absent by (intros data; congruence).
      rewrite download_fetch_cases. cbv zeta. rewrite E.
      destruct (http w url None) as [r|]; [|discriminate].
      destruct (ok r); discriminate.
    + rewrite download_file_absent by (intros data; congruence).
      rewrite download_fetch_cases. cbv zeta. rewrite E.
      destruct (http w url None) as [r|]; [|discriminate].
      destruct (ok r); [|discriminate]. intros [= <- <-].
      split.
      * eapply download_file_present. rewrite Hfs. apply lookup_insert_eq.
      * cbn [trace with_fs logged]. now rewrite http_gets_logged_get.
Qed.

Lemma download_file_idempotent_witness :
  let w := example_world 200 true in
  let url := "https://archlinux.cu.be/iso/latest/a.iso" in
  (download_file w false "a.iso" url
     (initial {["a.iso" := Regular "old"]})
   = (Ret (Some (false, Some (already_exist "a.iso"))),
      initial {["a.iso" := Regular "old"]})) /\
  exists st1,
    download_file w false "a.iso" url (initial ∅)
    = (Ret (Some (false, Some (downloaded "a.iso"))), st1) /\
    fs st1 !! "a.iso" = Some (Regular "ISO 9660") /\
    http_gets (trace st1) = 1%nat.
Proof.
  intros w url.
  destruct (download_file_idempotent w "a.iso" url
              (initial {["a.iso" := Regular "old"]})) as [Hpresent _].
  destruct (download_file_idempotent w "a.iso" url (initial ∅))
    as (_ & Habsent & _).
  split.
  - apply (Hpresent "old"). reflexivity.
  - destruct (Habsent {| status_code := 200; text := "";
                         iter_content := ["ISO "; "9660"] |})
      as (st1 & H1 & H2 & _ & H4); [reflexivity..|].
    exists st1. auto.
Defined.

(** ** C4: which answers of the server count as failures *)

(** C4, as the code has it.  Both fetches test [response.ok], which is
    false exactly for a status from 400 to 599.  For such a status the
    listing fetch raises HTTPError and extracts no link, and the download
    raises HTTPError with the file system as it was when the request was
    made, no byte of the body written.  For every other status, the 3xx
    ones included, the listing fetch returns the links found in the body
    and the download writes the body to the destination. *)
Theorem failure_is_status_4xx_5xx (w : World) (r : Response) :
  (ok r = false <-> (400 <= status_code r < 600)%Z) /\
  (forall html p st,
     http w html (Some (chosen_user_agent w)) = Responds r ->
     get_url_paths w html p st
     = (if ok r
        then Ret (Some (Re.findall (Re.dotall (compiled p)) (text r)))
        else Raise (HTTPError (status_code r)),
        logged (HttpGet html (Some (chosen_user_agent w))) st)) /\
  (forall (force : bool) image url st,
     http w url None = Responds r ->
     ok r = false ->
     fs st !! image <> Some Directory ->
     (force = false -> forall data, fs st !! image <> Some (Regular data)) ->
     download_file w force image url st
     = (Raise (HTTPError (status_code r)),
        logged (HttpGet url None)
          (if force then with_fs (delete image (fs st)) st else st))) /\
  (forall image url st,
     http w url None = Responds r ->
     ok r = true ->
     fs st !! image = None ->
     download_file w false image url st
     = (Ret (Some (false, Some (downloaded image))),
        with_fs (<[image := Regular (String.concat "" (iter_content r))]>
                   (fs st))
          (logged (HttpGet url None) st))).
Proof.
  split; [apply ok_false_iff|]. split; [|split].
  - intros html p st Hr. rewrite get_url_paths_cases. cbv zeta.
    rewrite Hr. now destruct (ok r).
  - intros force image url st Hr Hok Hdir Hreg. destruct force.
    + rewrite download_file_forced by exact Hdir.
      rewrite download_fetch_cases. cbv zeta. now rewrite Hr, Hok.
    + rewrite download_file_absent by now apply Hreg.
      rewrite download_fetch_cases. cbv zeta. now rewrite Hr, Hok.
  - intros image url st Hr Hok Habs.
    rewrite download_file_absent by (intros data; congruence).
    rewrite download_fetch_cases. cbv zeta. now rewrite Hr, Hok, Habs.
Qed.

Lemma failure_is_status_4xx_5xx_witness :
  let w := example_world 404 true in
  let iso_url := "https://archlinux.cu.be/iso/latest/a.iso" in
  fst (get_url_paths w (url archlinux) (url_pattern archlinux) (initial ∅))
  = Raise (HTTPError 404) /\
  download_file w false "a.iso" iso_url (initial ∅)
  = (Raise (HTTPError 404), logged (HttpGet iso_url None) (initial ∅)).
Proof.
  intros w iso_url. split.
  - destruct (failure_is_status_4xx_5xx w
                {| status_code := 404; text := listing_body;
                   iter_content := [] |}) as (_ & Hlisting & _).
    now rewrite Hlisting.
  - destruct (failure_is_status_4xx_5xx w
                {| status_code := 404; text := "";
                   iter_content := ["ISO "; "9660"] |}) as (_ & _ & Hfails & _).
    apply (Hfails false); [reflexivity|reflexivity|discriminate|].
    intros _ data. discriminate.
Defined.

(** C4 as the specification words it fails: status 300 is not a 2xx one
    and is delivered to the program as it is, with its body, since there
    is nothing to follow; with it the listing fetch returns the three
    links of the body and the download writes the body. *)
Lemma status_300_is_processed :
  let w := example_world 300 true in
  fst (get_url_paths w (url archlinux) (url_pattern archlinux) (initial ∅))
  = Ret (Some [ "archlinux-2024.01.01-x86_64.iso";
                "archlinux-2024.03.01-x86_64.iso";
                "archlinux-2024.02.15-x86_64.iso" ]) /\
  (let (res, st) :=
     download_file w false "a.iso"
       "https://archlinux.cu.be/iso/latest/a.iso" (initial ∅) in
   res = Ret (Some (false, Some (downloaded "a.iso"))) /\
   fs st !! "a.iso" = Some (Regular "ISO 9660")) /\
  ~ (forall r : Response,
       ~ (200 <= status_code r < 300)%Z -> ok r = false).
Proof.
  intros w. split; [vm_compute; reflexivity|].
  split; [vm_compute; split; reflexivity|].
  intros H.
  specialize (H {| status_code := 300; text := ""; iter_content := [] |}).
  cbn in H. assert (true = false) by (apply H; lia). discriminate.
Qed.

(** ** C10: the download that returns nothing *)

(** C10.  With [force] unset, a destination that is not a regular file but
    can be opened for writing, and a server that answers with success,
    [download_file] makes the request, writes the chunks, finds no regular
    file at the destination and returns None.  In [main] the unpacking of
    that None raises TypeError, which nobody catches. *)
Theorem download_file_returns_None (w : World) (image url : string)
    (st : state) (r : Response) :
  fs st !! image = Some Special ->
  http w url None = Responds r ->
  ok r = true ->
  download_file w false image url st
  = (Ret None, logged (HttpGet url None) st) /\
  (let st0 := initial {["archlinux-2024.03.01-x86_64.iso" := Special]} in
   fst (main DISTRO_OS (example_world 200 true) default_args st0)
   = Raise TypeError).
Proof.
  intros Hsp Hr Hok. split; [|vm_compute; reflexivity].
  rewrite download_file_absent by (intros data; congruence).
  rewrite download_fetch_cases. cbv zeta. now rewrite Hr, Hok, Hsp.
Qed.

Lemma download_file_returns_None_witness :
  let w := example_world 200 true in
  let st := initial {["a.iso" := Special]} in
  fst (download_file w false "a.iso"
         "https://archlinux.cu.be/iso/latest/a.iso" st) = Ret None.
Proof.
  intros w st.
  destruct (download_file_returns_None w "a.iso"
              "https://archlinux.cu.be/iso/latest/a.iso" st
              {| status_code := 200; text := "";
                 iter_content := ["ISO "; "9660"] |}) as [H _];
    [reflexivity..|].
  now rewrite H.
Defined.

(** ** The error exit *)

(** [v_error] sets the flag, prints the line and leaves with status 0. *)
Lemma v_error_exits {A} (cp : Verbosity.t) (message : string) (st : state) :
  Verbosity.v_error (A := A) cp message st
  = (Raise (SystemExit 0), failed message st).
Proof. reflexivity. Qed.

(** ** C8: the block device image *)

Section ProvisionFacts.

Lemma unlink_not_directory (p : string) (st : state) :
  fs st !! p <> Some Directory ->
  unlink_missing_ok p st = (Ret tt, with_fs (delete p (fs st)) st).
Proof.
  intros H. unfold unlink_missing_ok. unfold bind at 1, get_fs.
  destruct (fs st !! p) as [[data| |]|] eqn:E; try reflexivity.
  - now destruct H.
  - unfold ret. rewrite delete_id by exact E. now rewrite with_fs_id.
Qed.

(** What lines 523-544 do, by the answer of the tool. *)
Lemma provision_cases (w : World) (cp : Verbosity.t)
    (cloud_image size : string) (st : state) :
  fs st !! cloud_image <> Some Directory ->
  provision w cp cloud_image size st =
    let cmd := qemu_img_create cloud_image size in
    let (rr, f') := shell w cmd (Some 30%Z) (delete cloud_image (fs st)) in
    let st2 := with_fs f' (logged (ProcessRun cmd) st) in
    match rr with
    | Exits rc =>
        if (rc =? 0)%Z then
          match f' !! cloud_image with
          | Some (Regular _) =>
              Verbosity.v_ok cp
                ("A block device image '" +:+ cloud_image
                 +:+ " has been created.") st2
          | _ =>
              (Raise (SystemExit 0),
               failed ("Unable to create a block device image with the name "
                       +:+ "'" +:+ cloud_image +:+ "'.") st2)
          end
        else
          (Raise (SystemExit 0),
           failed (str_exn (CalledProcessError cmd rc)) st2)
    | TimesOut =>
        (Raise (SystemExit 0),
         failed (str_exn (TimeoutExpired cmd 30)) st2)
    end.
Proof.
  intros Hdir. unfold provision. unfold bind at 1.
  rewrite unlink_not_directory by exact Hdir.
  unfold try_except_else, subprocess_run. fold (qemu_img_create cloud_image size).
  cbv zeta. unfold bind at 1. unfold emit at 1. unfold bind at 1, get_fs at 1.
  change (fs (logged _ (with_fs ?f _))) with f.
  destruct (shell w _ _ _) as [rr f'].
  unfold bind at 1, put_fs at 1.
  destruct rr as [rc|].
  - destruct (rc =? 0)%Z.
    + unfold ret at 1. unfold bind at 1, is_file, bind at 1, get_fs, ret.
      cbn [fs with_fs].
      destruct (f' !! cloud_image) as [[data| |]|]; reflexivity.
    + reflexivity.
  - reflexivity.
Qed.

Lemma v_ok_cases (cp : Verbosity.t) (message : string) (st : state) :
  exists rest,
    Verbosity.v_ok cp message st
    = (Ret tt, {| fs := fs st; trace := trace st ++ rest;
                  cp_error := cp_error st |}) /\
    Forall is_print rest.
Proof.
  unfold Verbosity.v_ok. destruct (0 <? Verbosity.verbose cp)%nat.
  - eexists [_]. split; [reflexivity|]. now repeat constructor.
  - exists []. rewrite app_nil_r. destruct st. split; [reflexivity|constructor].
Qed.

End ProvisionFacts.

(** C8.  For a path that is not a directory, [provision] first unlinks the
    path, a missing file being no error, so that the image tool runs on a
    file system without the old image and the outcome is the one of a start
    without it.  The tool is the first thing the stage runs, with the
    command of line 529, and only lines are printed after it.  The stage
    ends normally only if the tool exits with 0 and a regular file is at the
    path afterwards; otherwise, also after an exit with 0 that left no file,
    it prints an error line and leaves through [v_error]. *)
Theorem provision_recreates_and_checks (w : World) (cp : Verbosity.t)
    (cloud_image size : string) (st : state) :
  fs st !! cloud_image <> Some Directory ->
  let cmd := qemu_img_create cloud_image size in
  let f0 := delete cloud_image (fs st) in
  let res := fst (provision w cp cloud_image size st) in
  let st' := snd (provision w cp cloud_image size st) in
  f0 !! cloud_image = None /\
  provision w cp cloud_image size (with_fs f0 st)
  = provision w cp cloud_image size st /\
  fs st' = snd (shell w cmd (Some 30%Z) f0) /\
  (exists rest,
     trace st' = trace st ++ ProcessRun cmd :: rest /\ Forall is_print rest) /\
  (res = Ret tt <->
   fst (shell w cmd (Some 30%Z) f0) = Exits 0 /\
   exists data, fs st' !! cloud_image = Some (Regular data)) /\
  (res <> Ret tt ->
   res = Raise (SystemExit 0) /\
   exists message,
     last (trace st') = Some (Printed (Verbosity.error_line message))).
Proof.
  intros Hdir cmd f0 res st'.
  assert (f0 !! cloud_image = None) as Hgone by apply lookup_delete_eq.
  split; [exact Hgone|]. split.
  { rewrite !provision_cases; [|exact Hdir|cbn; fold f0; congruence].
    cbn [fs with_fs]. fold f0. rewrite (delete_id f0) by exact Hgone.
    reflexivity. }
  subst res st'. rewrite provision_cases by exact Hdir. cbv zeta.
  fold cmd f0. destruct (shell w cmd (Some 30%Z) f0) as [rr f'].
  cbn [fst snd]. destruct rr as [rc|].
  - destruct (rc =? 0)%Z eqn:Hrc.
    + apply Z.eqb_eq in Hrc as ->.
      destruct (f' !! cloud_image) as [[data| |]|] eqn:E.
      * destruct (v_ok_cases cp
                    ("A block device image '" +:+ cloud_image
                     +:+ " has been created.")
                    (with_fs f' (logged (ProcessRun cmd) st)))
          as (rest & -> & Hrest).
        cbn [fst snd fs trace with_fs logged].
        split; [reflexivity|]. split.
        { exists rest. now rewrite <- app_assoc. }
        split; [|easy]. split; [|reflexivity].
        intros _. split; [reflexivity|]. now exists data.
      * cbn [fst snd fs trace failed with_fs logged].
        split; [reflexivity|]. split.
        { eexists [_]. rewrite <- app_assoc.
          split; [reflexivity|]. now repeat constructor. }
        split.
        { split; [discriminate|]. intros [_ [data Hd]]. congruence. }
        intros _. split; [reflexivity|]. eexists. apply last_snoc.
      * cbn [fst snd fs trace failed with_fs logged].
        split; [reflexivity|]. split.
        { eexists [_]. rewrite <- app_assoc.
          split; [reflexivity|]. now repeat constructor. }
        split.
        { split; [discriminate|]. intros [_ [data Hd]]. congruence. }
        intros _. split; [reflexivity|]. eexists. apply last_snoc.
      * cbn [fst snd fs trace failed with_fs logged].
        split; [reflexivity|]. split.
        { eexists [_]. rewrite <- app_assoc.
          split; [reflexivity|]. now repeat constructor. }
        split.
        { split; [discriminate|]. intros [_ [data Hd]]. congruence. }
        intros _. split; [reflexivity|]. eexists. apply last_snoc.
    + cbn [fst snd fs trace failed with_fs logged].
      split; [reflexivity|]. split.
      { eexists [_]. rewrite <- app_assoc.
        split; [reflexivity|]. now repeat constructor. }
      split.
      { split; [discriminate|]. intros [[= ->] _]. discriminate. }
      intros _. split; [reflexivity|]. eexists. apply last_snoc.
  - cbn [fst snd fs trace failed with_fs logged].
    split; [reflexivity|]. split.
    { eexists [_]. rewrite <- app_assoc.
      split; [reflexivity|]. now repeat constructor. }
    split.
    { split; [discriminate|]. intros [[=] _]. }
    intros _. split; [reflexivity|]. eexists. apply last_snoc.
Qed.

Lemma provision_recreates_and_checks_witness :
  let w := example_world 200 false in
  let cp := {| Verbosity.force := false; Verbosity.verbose := 0 |} in
  let img := "archlinux-cloud-2024.03.01-x86_64.img" in
  let st := initial {[img := Regular "old"]} in
  fs st !! img <> Some Directory /\
  fst (shell w (qemu_img_create img "3G") (Some 30%Z) (delete img (fs st)))
  = Exits 0 /\
  fst (provision w cp img "3G" st) = Raise (SystemExit 0).
Proof.
  intros w cp img st.
  assert (fs st !! img <> Some Directory) as Hdir by (vm_compute; discriminate).
  split; [exact Hdir|]. split; [vm_compute; reflexivity|].
  destruct (provision_recreates_and_checks w cp img "3G" st Hdir)
    as (_ & _ & _ & _ & _ & Hfail).
  apply Hfail. vm_compute. discriminate.
Defined.

(** ** The command lines *)

Section CommandFacts.

Lemma concat_app (l1 l2 : list string) :
  String.concat "" (l1 ++ l2) = String.concat "" l1 +:+ String.concat "" l2.
Proof.
  induction l1 as [|c l1 IH]; [reflexivity|].
  change ((c :: l1) ++ l2) with (c :: (l1 ++ l2)).
  now rewrite !concat_cons, IH, string_app_assoc.
Qed.

(** Each line of a literal is part of the command. *)
Lemma line_within (l : string) (lines : list string) :
  In l lines -> Str.within l (String.concat "" lines).
Proof.
  intros Hin. apply in_split in Hin as (l1 & l2 & ->).
  exists (String.concat "" l1), (String.concat "" l2).
  now rewrite concat_app, concat_cons.
Qed.

Lemma build_command_lines (h : host) (memory iso_image cloud_image : string) :
  build_command h memory iso_image cloud_image
  = String.concat "" (command_lines h memory iso_image cloud_image).
Proof. now destruct h. Qed.

(** Both literals end with the same two lines. *)
Lemma command_lines_end (h : host) (memory iso_image cloud_image : string) :
  exists lines,
    command_lines h memory iso_image cloud_image
    = lines ++ ["-vga qxl "; "-boot c" +:+ nl].
Proof.
  destruct h.
  - exists (firstn 13 (cmd_linux_lines memory iso_image cloud_image)).
    reflexivity.
  - exists (firstn 10 (cmd_windows_lines memory iso_image cloud_image)).
    reflexivity.
Qed.

Lemma build_command_end (h : host) (memory iso_image cloud_image : string) :
  exists pre,
    build_command h memory iso_image cloud_image
    = (pre +:+ "-vga qxl") +:+ String " " ("-boot c" +:+ nl).
Proof.
  destruct (command_lines_end h memory iso_image cloud_image) as [lines E].
  exists (String.concat "" lines).
  rewrite build_command_lines, E, concat_app.
  change (String.concat "" ["-vga qxl "; "-boot c" +:+ nl])
    with ("-vga qxl" +:+ String " " ("-boot c" +:+ nl)).
  now rewrite string_app_assoc.
Qed.

(** Splitting into words goes through a blank. *)
Lemma words_go_app_space (a b : string) (c : ascii) :
  Ascii.is_space c = true ->
  forall cur,
    String.words_go cur (a +:+ String c b)
    = String.words_go cur a ++ String.words b.
Proof.
  intros Hc. induction a as [|x a IH]; intros cur.
  - rewrite string_app_nil_l. cbn [String.words_go]. now rewrite Hc.
  - rewrite string_app_cons. cbn [String.words_go].
    destruct (Ascii.is_space x).
    + now rewrite IH, app_assoc.
    + apply IH.
Qed.

Lemma option_arg_last (opt v : string) (tokens : list string) :
  option_arg opt (tokens ++ [opt; v]) = Some v.
Proof.
  induction tokens as [|t tokens IH].
  - cbn. now rewrite String.eqb_refl.
  - change ((t :: tokens) ++ [opt; v]) with (t :: (tokens ++ [opt; v])).
    destruct (tokens ++ [opt; v]) as [|t' rest] eqn:E.
    + now destruct tokens.
    + cbn [option_arg]. cbn [option_arg] in IH. now rewrite IH.
Qed.

(** Whatever the three values, the machine boots the first hard disk. *)
Lemma build_command_boots_disk (h : host)
    (memory iso_image cloud_image : string) :
  first_boot_device (build_command h memory iso_image cloud_image)
  = Some HardDisk.
Proof.
  destruct (build_command_end h memory iso_image cloud_image) as [pre ->].
  unfold first_boot_device, String.words.
  rewrite words_go_app_space by reflexivity.
  change (String.words ("-boot c" +:+ nl)) with ["-boot"; "c"].
  now rewrite option_arg_last.
Qed.

(** A process that is run is logged before anything it causes. *)
Lemma run_then_report (w : World) (cp : Verbosity.t) (cmd : string)
    (timeout : option Z) (st : state) :
  exists rest,
    trace (snd (try_except_else (subprocess_run w cmd timeout)
                  (fun e =>
                     if is_Exception e
                     then Some (Verbosity.v_error cp (str_exn e))
                     else None)
                  (fun _ => ret tt) st))
    = trace st ++ ProcessRun cmd :: rest.
Proof.
  unfold try_except_else, subprocess_run. unfold bind at 1, emit at 1.
  unfold bind at 1, get_fs at 1.
  destruct (shell w cmd timeout _) as [rr f'].
  unfold bind at 1, put_fs at 1.
  destruct rr as [rc|]; [destruct (rc =? 0)%Z|];
    cbn; eexists; rewrite <- ?app_assoc; reflexivity.
Qed.

(** [launch] runs the command of the host, first thing. *)
Lemma launch_runs_build_command (w : World) (cp : Verbosity.t)
    (memory iso_image cloud_image : string) (st : state) :
  exists rest,
    trace (snd (launch w cp memory iso_image cloud_image st))
    = trace st
      ++ ProcessRun (build_command (host_of w) memory iso_image cloud_image)
      :: rest.
Proof.
  unfold launch, host_of.
  destruct (String.eqb (platform w) "win32"); apply run_then_report.
Qed.

(** The words of a literal whose lines end with a blank. *)
Lemma words_line (b rest : string) :
  String.words ((b +:+ " ") +:+ rest) = String.words b ++ String.words rest.
Proof.
  rewrite string_app_assoc.
  change (" " +:+ rest) with (String " " rest).
  now apply words_go_app_space.
Qed.

Lemma words_concat_lines (bodies : list string) (last : string) :
  String.words
    (String.concat "" (map (fun b => b +:+ " ") bodies ++ [last]))
  = flat_map String.words bodies ++ String.words last.
Proof.
  induction bodies as [|b bodies IH]; [reflexivity|].
  cbn [map flat_map]. rewrite <- app_comm_cons, concat_cons, words_line, IH.
  now rewrite app_assoc.
Qed.

(** The words of the Windows command, whatever the three values. *)
Lemma cmd_windows_words (memory iso_image cloud_image : string) :
  String.words (cmd_windows memory iso_image cloud_image)
  = ["qemu-system-x86_64"; "-cpu"; "kvm64"; "-smp"; "2"; "-m"]
    ++ String.words memory
    ++ ["-k"; "fr_be"; "-machine"; "q35"; "-cdrom"]
    ++ String.words iso_image
    ++ ["-drive"] ++ String.words (drive_word cloud_image)
    ++ ["-device"; "virtio-scsi-pci,id=virtio";
        "-device"; "virtio-serial-pci";
        "-nic"; "user,model=virtio-net-pci,hostfwd=tcp::8022-:22";
        "-vga"; "qxl"; "-boot"; "c"].
Proof.
  assert (cmd_windows_lines memory iso_image cloud_image
          = map (fun b => b +:+ " ")
              [ "qemu-system-x86_64 -cpu kvm64"; "-smp 2";
                "-m" +:+ " " +:+ memory; "-k fr_be"; "-machine q35";
                "-cdrom" +:+ " " +:+ iso_image;
                "-drive" +:+ " " +:+ drive_word cloud_image;
                "-device virtio-scsi-pci,id=virtio";
                "-device virtio-serial-pci";
                "-nic user,model=virtio-net-pci,hostfwd=tcp::8022-:22";
                "-vga qxl" ]
            ++ ["-boot c" +:+ nl]) as E.
  { unfold cmd_windows_lines, drive_word. cbn [map app].
    rewrite !string_app_assoc. reflexivity. }
  unfold cmd_windows. rewrite E, words_concat_lines. cbn [flat_map].
  rewrite <- !(string_app_assoc _ " "), !words_line.
  change (String.words ("-boot c" +:+ nl)) with ["-boot"; "c"].
  cbn -[String.words drive_word]. now rewrite <- !app_assoc.
Qed.

(** The words of the Linux command. *)
Lemma cmd_linux_words (memory iso_image cloud_image : string) :
  String.words (cmd_linux memory iso_image cloud_image)
  = ["qemu-system-x86_64"; "-cpu"; "kvm64"; "-smp"; "2"; "-m"]
    ++ String.words memory
    ++ ["-k"; "fr_be"; "-machine"; "q35"; "-cdrom"]
    ++ String.words iso_image
    ++ ["-drive"] ++ String.words (drive_word cloud_image)
    ++ ["-device"; "virtio-scsi-pci,id=virtio";
        "-enable-kvm";
        "-device"; "virtio-serial-pci";
        "-device";
        "virtserialport,chardev=spicechannel0,name=com.redhat.spice.0";
        "-chardev"; "spicevmc,id=spicechannel0,name=vdagent";
        "-nic"; "user,model=virtio-net-pci,hostfwd=tcp::8022-:22";
        "-vga"; "qxl"; "-boot"; "c"].
Proof.
  assert (cmd_linux_lines memory iso_image cloud_image
          = map (fun b => b +:+ " ")
              [ "qemu-system-x86_64 -cpu kvm64"; "-smp 2";
                "-m" +:+ " " +:+ memory; "-k fr_be"; "-machine q35";
                "-cdrom" +:+ " " +:+ iso_image;
                "-drive" +:+ " " +:+ drive_word cloud_image;
                "-device virtio-scsi-pci,id=virtio";
                "-enable-kvm";
                "-device virtio-serial-pci";
                "-device virtserialport,chardev=spicechannel0,name=com.redhat.spice.0";
                "-chardev spicevmc,id=spicechannel0,name=vdagent";
                "-nic user,model=virtio-net-pci,hostfwd=tcp::8022-:22";
                "-vga qxl" ]
            ++ ["-boot c" +:+ nl]) as E.
  { unfold cmd_linux_lines, drive_word. cbn [map app].
    rewrite !string_app_assoc. reflexivity. }
  unfold cmd_linux. rewrite E, words_concat_lines. cbn [flat_map].
  rewrite <- !(string_app_assoc _ " "), !words_line.
  change (String.words ("-boot c" +:+ nl)) with ["-boot"; "c"].
  cbn -[String.words drive_word]. now rewrite <- !app_assoc.
Qed.

End CommandFacts.

(** ** C2: what both command lines configure *)

(** C2, as the code has it.  For both hosts the command has the options
    for 2 virtual CPUs, the memory given, the ISO as the CD-ROM, the image
    as a raw virtio disk, the forward of host port 8022 to guest port 22 and
    the QXL display, and it is the command [launch] runs, as the last event
    of a run of [main] with the default memory shows.  Its last option is
    [-boot c]: the machine boots the first hard disk, not the CD-ROM. *)
Theorem build_command_wiring (h : host)
    (memory iso_image cloud_image : string) :
  let cmd := build_command h memory iso_image cloud_image in
  Str.within "-smp 2 " cmd /\
  Str.within ("-m " +:+ memory +:+ " ") cmd /\
  Str.within ("-cdrom " +:+ iso_image +:+ " ") cmd /\
  Str.within ("-drive file=" +:+ cloud_image
              +:+ ",if=virtio,media=disk,format=raw,cache=none ") cmd /\
  Str.within "-nic user,model=virtio-net-pci,hostfwd=tcp::8022-:22 " cmd /\
  Str.within "-vga qxl " cmd /\
  (exists pre, cmd = pre +:+ "-boot c" +:+ nl) /\
  first_boot_device cmd = Some HardDisk /\
  (forall w cp st,
     host_of w = h ->
     exists rest,
       trace (snd (launch w cp memory iso_image cloud_image st))
       = trace st ++ ProcessRun cmd :: rest) /\
  last_event (main DISTRO_OS (example_world 200 true) (args_for "archlinux")
                (initial ∅))
  = Some (ProcessRun
            (build_command Linux "2048" "archlinux-2024.03.01-x86_64.iso"
               "archlinux-cloud-2024.03.01-x86_64.img")).
Proof.
  intros cmd. subst cmd. rewrite build_command_lines.
  repeat split;
    try (apply line_within; destruct h; cbn; tauto);
    try (vm_compute; reflexivity).
  - destruct (build_command_end h memory iso_image cloud_image) as [pre E].
    exists (pre +:+ "-vga qxl "). rewrite <- build_command_lines, E.
    now rewrite !string_app_assoc.
  - rewrite <- build_command_lines. apply build_command_boots_disk.
  - intros w cp st <-. rewrite <- build_command_lines.
    apply launch_runs_build_command.
Qed.

(** C2 as the specification words it fails: on neither host does the
    machine boot the CD-ROM first. *)
Lemma boot_is_not_cdrom_first :
  let iso := "archlinux-2024.03.01-x86_64.iso" in
  let img := "archlinux-cloud-2024.03.01-x86_64.img" in
  first_boot_device (build_command Linux "2048" iso img) = Some HardDisk /\
  first_boot_device (build_command Windows "2048" iso img) = Some HardDisk /\
  ~ (forall h memory iso_image cloud_image,
       first_boot_device (build_command h memory iso_image cloud_image)
       = Some CdRom).
Proof.
  intros iso img. split; [vm_compute; reflexivity|].
  split; [vm_compute; reflexivity|].
  intros H. specialize (H Linux "2048" iso img). vm_compute in H.
  discriminate.
Qed.

(** ** C9: what the Windows command line leaves out *)

(** C9.  The Windows literal is the Linux literal without the lines for
    hardware acceleration and for the guest-agent channel (the serial bus
    [-device virtio-serial-pci] stays in both): each of these lines is in the
    Linux literal and none is in the Windows one.  Split into words, the
    Linux command has each word of these options, and the Windows command
    has such a word only if one of the three values passed in brings it.
    Both commands name the ISO and the image they are given, in the same
    options. *)
Theorem windows_command_omits_kvm_and_agent
    (memory iso_image cloud_image : string) :
  cmd_windows_lines memory iso_image cloud_image
  = List.filter
      (fun l => negb (existsb (String.eqb l) kvm_and_agent_lines))
      (cmd_linux_lines memory iso_image cloud_image) /\
  (forall l,
     In l kvm_and_agent_lines ->
     In l (cmd_linux_lines memory iso_image cloud_image) /\
     ~ In l (cmd_windows_lines memory iso_image cloud_image)) /\
  (forall word,
     In word kvm_and_agent_words ->
     In word (String.words (cmd_linux memory iso_image cloud_image)) /\
     (In word (String.words (cmd_windows memory iso_image cloud_image)) ->
      In word (String.words memory) \/
      In word (String.words iso_image) \/
      In word (String.words (drive_word cloud_image)))) /\
  (forall h,
     Str.within ("-cdrom " +:+ iso_image +:+ " ")
       (build_command h memory iso_image cloud_image) /\
     Str.within ("-drive file=" +:+ cloud_image
                 +:+ ",if=virtio,media=disk,format=raw,cache=none ")
       (build_command h memory iso_image cloud_image)) /\
  (let cmd := build_command Windows "2048" "archlinux-2024.03.01-x86_64.iso"
                "archlinux-cloud-2024.03.01-x86_64.img" in
   Str.contains "-enable-kvm" cmd = false /\
   Str.contains "virtserialport" cmd = false /\
   Str.contains "-chardev" cmd = false /\
   Str.contains "vdagent" cmd = false).
Proof.
  split; [vm_compute; reflexivity|]. split; [|split; [|split]].
  - intros l Hl. split.
    + destruct Hl as [<-|[<-|[<-|[]]]]; cbn; tauto.
    + intros Hin.
      assert (existsb (String.eqb l)
                (cmd_windows_lines memory iso_image cloud_image) = true) as He.
      { apply existsb_exists. exists l. now rewrite String.eqb_refl. }
      destruct Hl as [<-|[<-|[<-|[]]]]; vm_compute in He; discriminate.
  - intros word Hw. split.
    + rewrite cmd_linux_words, !in_app_iff. do 6 right.
      destruct Hw as [<-|[<-|[<-|[<-|[]]]]]; cbn; tauto.
    + rewrite cmd_windows_words, !in_app_iff.
      intros [H|[H|[H|[H|[H|[H|H]]]]]]; auto;
        destruct Hw as [<-|[<-|[<-|[<-|[]]]]]; cbn in H;
        intuition discriminate.
  - intros h. rewrite build_command_lines.
    split; apply line_within; destruct h; cbn; tauto.
  - vm_compute. repeat split; reflexivity.
Qed.

(** ** C1: the exit status after a failure *)

(** C1 fails on the code.  [v_error] prints its line and then leaves with
    [sys.exit(0)], so every failure reported through it ends the process
    with status 0: an unknown distribution, an empty candidate set, a failed
    image creation and a failed launch.  The failures that are not reported
    through it (a failed listing fetch, a file name without version, a
    failed download) leave by an exception nobody catches, with status 1. *)
Theorem v_error_exits_with_status_0 :
  (forall (cp : Verbosity.t) (message : string) (st : state),
     let run := Verbosity.v_error (A := unit) cp message st in
     status_of run = 0%Z /\
     last_event run = Some (Printed (Verbosity.error_line message))) /\
  (let run := main DISTRO_OS (example_world 200 true) (args_for "nosuch")
                (initial ∅) in
   status_of run = 0%Z /\ is_error_line (last_event run) = true) /\
  (let run := main DISTRO_OS (make_world 200 "" 200 true 0)
                (args_for "archlinux") (initial ∅) in
   status_of run = 0%Z /\ is_error_line (last_event run) = true) /\
  (let run := main DISTRO_OS (example_world 200 false)
                (args_for "archlinux") (initial ∅) in
   status_of run = 0%Z /\ is_error_line (last_event run) = true) /\
  (let run := main DISTRO_OS (make_world 200 listing_body 200 true 1)
                (args_for "archlinux") (initial ∅) in
   status_of run = 0%Z /\ is_error_line (last_event run) = true) /\
  (let run := main DISTRO_OS (make_world 404 listing_body 200 true 0)
                (args_for "archlinux") (initial ∅) in
   fst run = Raise (HTTPError 404) /\ status_of run = 1%Z) /\
  (let run := main DISTRO_OS (make_world 200 unversioned_body 200 true 0)
                (args_for "manjaro") (initial ∅) in
   fst run = Raise AttributeError /\ status_of run = 1%Z) /\
  (let run := main DISTRO_OS (make_world 200 listing_body 404 true 0)
                (args_for "archlinux") (initial ∅) in
   fst run = Raise (HTTPError 404) /\ status_of run = 1%Z).
Proof.
  split.
  - intros cp message st run. subst run. rewrite v_error_exits.
    split; [reflexivity|]. apply last_snoc.
  - repeat split; vm_compute; reflexivity.
Qed.

(** * Properties of the stages around the claims *)

(** ** The file name of the artifact *)

Section LastSegmentFacts.

Lemma has_char_app (c : ascii) (s1 s2 : string) :
  has_char c (s1 +:+ s2) = has_char c s1 || has_char c s2.
Proof.
  induction s1 as [|d s1 IH]; [reflexivity|].
  rewrite string_app_cons. cbn [has_char]. now rewrite IH, orb_assoc.
Qed.

Lemma last_segment_from_spec (sep : ascii) (s : string) :
  forall acc,
    has_char sep acc = false ->
    has_char sep (Str.last_segment_from sep s acc) = false /\
    (has_char sep s = false ->
     Str.last_segment_from sep s acc = acc +:+ s) /\
    (has_char sep s = true ->
     exists pre, s = pre +:+ String sep (Str.last_segment_from sep s acc)).
Proof.
  induction s as [|c s IH]; intros acc Hacc; cbn [Str.last_segment_from has_char].
  - repeat split; [exact Hacc|now rewrite string_app_nil_r|discriminate].
  - destruct (Ascii.eqb c sep) eqn:Hc.
    + apply Ascii.eqb_eq in Hc as ->.
      destruct (IH EmptyString eq_refl) as (Hno & Hsame & Hsplit).
      repeat split; [exact Hno|discriminate|]. intros _.
      destruct (has_char sep s) eqn:Hs.
      * destruct (Hsplit eq_refl) as [pre Hpre].
        exists (String sep pre). rewrite string_app_cons. now f_equal.
      * exists EmptyString. rewrite string_app_nil_l, (Hsame eq_refl).
        now rewrite string_app_nil_l.
    + assert (has_char sep (acc +:+ String c EmptyString) = false) as Hacc'.
      { rewrite has_char_app, Hacc. cbn. now rewrite Hc. }
      destruct (IH _ Hacc') as (Hno & Hsame & Hsplit). cbn [orb].
      repeat split; [exact Hno| |].
      * intros Hs. rewrite (Hsame Hs), string_app_assoc. reflexivity.
      * intros Hs. destruct (Hsplit Hs) as [pre Hpre].
        exists (String c pre). rewrite string_app_cons. now f_equal.
Qed.

End LastSegmentFacts.

(** X5.  [html.split("/")[-1]] has no slash; it is the whole string when
    the string has no slash, and otherwise the string is some text, a slash
    and it. *)
Theorem last_segment_is_last (s : string) :
  has_char "/" (Str.last_segment "/" s) = false /\
  (has_char "/" s = false -> Str.last_segment "/" s = s) /\
  (has_char "/" s = true ->
   exists pre, s = pre +:+ "/" +:+ Str.last_segment "/" s).
Proof.
  unfold Str.last_segment.
  destruct (last_segment_from_spec "/" s EmptyString eq_refl)
    as (Hno & Hsame & Hsplit).
  repeat split; [exact Hno| |exact Hsplit].
  intros Hs. now rewrite (Hsame Hs), string_app_nil_l.
Qed.

(** ** The name of the distribution *)

Section LowerFacts.

Lemma lower_char_idem (c : ascii) :
  Str.lower_char (Str.lower_char c) = Str.lower_char c.
Proof. destruct c as [[] [] [] [] [] [] [] []]; reflexivity. Qed.

Lemma lower_idem (s : string) : Str.lower (Str.lower s) = Str.lower s.
Proof.
  induction s as [|c s IH]; [reflexivity|].
  cbn [Str.lower]. now rewrite lower_char_idem, IH.
Qed.

Lemma lower_eqb_empty (s : string) :
  String.eqb (Str.lower s) "" = String.eqb s "".
Proof. now destruct s. Qed.

Lemma lookup_distro_key (d : catalog) (name : string) (e : entry) :
  lookup_distro d name = Some e -> In (name, e) d.
Proof.
  induction d as [|[k e'] d IH]; [discriminate|]. cbn [lookup_distro].
  destruct (String.eqb k name) eqn:Hk.
  - apply String.eqb_eq in Hk as ->. intros [= ->]. now left.
  - intros H. right. now apply IH.
Qed.

End LowerFacts.

(** X1.  For a value of [--distro] made of ASCII characters, [main]
    lower-cases the value before it looks it up: a run with a name and the
    run with the lower-cased name are the same run, whatever the world.
    The keys are compared as they are written, so the entry found has the
    lower-cased name as its key, and a key with an upper-case ASCII letter
    is never found. *)
Theorem distro_is_matched_in_lower_case (d : catalog) (w : World)
    (args : Args) (st : state) :
  Str.isascii (arg_distro args) = true ->
  main d w (set_distro (Str.lower (arg_distro args)) args) st
  = main d w args st /\
  (forall name e,
     registered d (if String.eqb (arg_distro args) "" then None
                   else Some (Str.lower (arg_distro args)))
     = Some (name, e) ->
     name = Str.lower (arg_distro args) /\ Str.lower name = name /\
     In (name, e) d).
Proof.
  intros _. split.
  - unfold main, set_distro. cbn [arg_list arg_distro arg_force arg_size
                                   arg_verbose arg_memory].
    now rewrite lower_eqb_empty, lower_idem.
  - intros name e. unfold registered.
    destruct (String.eqb (arg_distro args) ""); [discriminate|].
    destruct (lookup_distro d (Str.lower (arg_distro args))) as [e'|] eqn:E;
      [|discriminate].
    intros [= <- <-]. repeat split; [apply lower_idem|].
    now apply lookup_distro_key.
Qed.

Lemma distro_is_matched_in_lower_case_witness :
  let args := args_for "ArchLinux" in
  let w := example_world 200 true in
  Str.isascii (arg_distro args) = true /\
  main DISTRO_OS w (set_distro "archlinux" args) (initial ∅)
  = main DISTRO_OS w args (initial ∅) /\
  registered DISTRO_OS (Some (Str.lower (arg_distro args)))
  = Some ("archlinux", archlinux).
Proof.
  intros args w.
  assert (Str.isascii (arg_distro args) = true) as Hascii by reflexivity.
  split; [exact Hascii|].
  split; [|reflexivity].
  exact (proj1 (distro_is_matched_in_lower_case DISTRO_OS w args (initial ∅)
                  Hascii)).
Defined.

(** ** The absolute URL of the artifact *)

Section LiteralFacts.

Context {R : Type}.

(** A literal matches exactly when it is a prefix of what is left. *)
Lemma matchk_lit (p : string) :
  forall s pos g (k : string -> nat -> Re.caps -> option R),
    Re.matchk (Re.lit p) s pos g k
    = if String.prefix p s
      then k (Str.drop (String.length p) s) (pos + String.length p)%nat g
      else None.
Proof.
  induction p as [|c p IH]; intros s pos g k; cbn [Re.lit Re.matchk].
  - rewrite drop_0, Nat.add_0_r. now destruct s.
  - destruct s as [|c' s]; [reflexivity|].
    cbn [String.prefix String.length Re.cs_mem].
    destruct (ascii_dec c c') as [->|Hne].
    + rewrite Ascii.eqb_refl, IH, drop_S.
      now replace (S pos + String.length p)%nat
        with (pos + S (String.length p))%nat by lia.
    + destruct (Ascii.eqb c' c) eqn:E; [|reflexivity].
      apply Ascii.eqb_eq in E. congruence.
Qed.

End LiteralFacts.

Section HttpsFacts.

Lemma prefix_app (p a b : string) :
  String.prefix p a = true -> String.prefix p (a +:+ b) = true.
Proof.
  revert a. induction p as [|c p IH]; intros a.
  - intros _. now destruct (a +:+ b).
  - destruct a as [|c' a]; [discriminate|].
    rewrite string_app_cons. cbn [String.prefix].
    destruct (ascii_dec c c'); [apply IH|discriminate].
Qed.

(** [^] fails everywhere but at the beginning. *)
Lemma search_https_later (s : string) :
  forall pos, (0 < pos)%nat -> Re.search_from Patterns.https_re s pos = None.
Proof.
  induction s as [|c s IH]; intros pos Hpos; cbn [Re.search_from];
    unfold Re.attempt, Patterns.https_re; cbn [Re.matchk];
    destruct (Nat.eqb_spec pos 0); try lia; [reflexivity|].
  apply IH. lia.
Qed.

(** [re.search(r"^https://", s)] is [s.startswith("https://")]. *)
Lemma search_https_prefix (s : string) :
  is_Some (Re.re_search Patterns.https_re s)
  <-> String.prefix "https://" s = true.
Proof.
  unfold Re.re_search.
  assert (Re.attempt false Patterns.https_re s 0
          = if String.prefix "https://" s
            then Some (8%nat, []) else None) as Ha.
  { unfold Re.attempt, Patterns.https_re. cbn [Re.matchk Nat.eqb].
    rewrite matchk_lit. now destruct (String.prefix "https://" s). }
  destruct s as [|c s]; cbn [Re.search_from]; rewrite Ha.
  - cbn. split; [intros [x Hx]; discriminate|discriminate].
  - destruct (String.prefix "https://" (String c s)).
    + split; [reflexivity|]. intros _. now eexists.
    + rewrite search_https_later by lia.
      split; [intros [x Hx]; discriminate|discriminate].
Qed.

End HttpsFacts.

(** X4.  The URL [main] downloads from is the greatest link itself when
    that link starts with [https://], and the listing URL followed by the
    link otherwise, also for a link with another scheme.  So it starts with
    [https://] whenever the listing URL of the entry does. *)
Theorem select_html_is_absolute (e : entry) (filtered_values : list string) :
  let link := hd "" (sort_reverse filtered_values) in
  (String.prefix "https://" link = true ->
   select_html e filtered_values = link) /\
  (String.prefix "https://" link = false ->
   select_html e filtered_values = url e +:+ link) /\
  (String.prefix "https://" (url e) = true ->
   String.prefix "https://" (select_html e filtered_values) = true).
Proof.
  intros link. unfold select_html. fold link.
  pose proof (search_https_prefix link) as Hs.
  destruct (Re.re_search Patterns.https_re link) as [m|].
  - assert (String.prefix "https://" link = true) as Hp
      by (apply Hs; now exists m).
    repeat split; [congruence|now intros _].
  - assert (String.prefix "https://" link = false) as Hp.
    { destruct (String.prefix "https://" link); [|reflexivity].
      destruct (proj2 Hs eq_refl) as [x Hx]. discriminate. }
    repeat split; [congruence|]. intros He. now apply prefix_app.
Qed.

(** ** The characters of a version *)

Section VersionChars.

Lemma all_chars_app (f : ascii -> bool) (s1 s2 : string) :
  all_chars f (s1 +:+ s2) = all_chars f s1 && all_chars f s2.
Proof.
  induction s1 as [|c s1 IH]; [reflexivity|].
  rewrite string_app_cons. cbn [all_chars]. now rewrite IH, andb_assoc.
Qed.

Lemma all_chars_impl (f g : ascii -> bool) (s : string) :
  (forall c, f c = true -> g c = true) ->
  all_chars f s = true -> all_chars g s = true.
Proof.
  intros Hfg. induction s as [|c s IH]; [reflexivity|]. cbn [all_chars].
  rewrite !andb_true_iff. intros [Hc Hs]. auto.
Qed.

Lemma all_in_all_chars (cs : Re.charset) (u : string) :
  all_in cs u = all_chars (Re.cs_mem cs) u.
Proof. induction u as [|c u IH]; [reflexivity|]. cbn. now rewrite IH. Qed.

(** A matched text is made of the characters of the pattern. *)
Lemma matches_may (r : Re.regex) (pos : nat) (u t : string) :
  matches r pos u t -> all_chars (may r) u = true.
Proof.
  induction 1 as [pos t|cs c pos t Hc|cs lo greedy pos u t Hu Hlen
                 |r1 r2 pos u1 u2 t _ IH1 _ IH2|r1 r2 pos u t _ IH
                 |r1 r2 pos u t _ IH|n r pos u t _ IH|t|pos t He];
    cbn [may all_chars]; try reflexivity.
  - now rewrite Hc.
  - now rewrite <- all_in_all_chars.
  - rewrite all_chars_app, andb_true_iff. split.
    + eapply all_chars_impl; [|exact IH1]. intros c ->. reflexivity.
    + eapply all_chars_impl; [|exact IH2]. intros c ->. apply orb_true_r.
  - eapply all_chars_impl; [|exact IH]. intros c ->. reflexivity.
  - eapply all_chars_impl; [|exact IH]. intros c ->. apply orb_true_r.
  - exact IH.
Qed.

(** A text that begins with [[0-9]+] begins with a digit. *)
Lemma matches_digits_first (r : Re.regex) (pos : nat) (u t : string) :
  matches (Re.Cat (Re.Rep Patterns.digit 1 true) r) pos u t ->
  exists c u', u = String c u' /\ Re.cs_mem Patterns.digit c = true.
Proof.
  intros H. inversion H as [| | |r1 r2 p u1 u2 t' H1 H2| | | | |]; subst.
  inversion H1 as [| |cs lo g p u0 t0 Hu Hlen| | | | | |]; subst.
  destruct u1 as [|c u1]; [cbn in Hlen; lia|].
  cbn [all_in] in Hu. apply andb_true_iff in Hu as [Hc _].
  exists c, (u1 +:+ u2). now rewrite string_app_cons.
Qed.

End VersionChars.

Section VersionShape.

Lemma version_of_matches (s v : string) :
  version_of s = Some v ->
  exists i t,
    Str.drop i s = v +:+ t /\
    (matches Patterns.major_minor_patch i v t \/
     matches Patterns.major_minor i v t \/
     matches Patterns.date_T i v t).
Proof.
  intros Hv. apply version_of_Some in Hv as (i & _ & Hv & _).
  exists i. unfold version_at in Hv.
  destruct (text_at Patterns.major_minor_patch s i) as [v1|] eqn:E1.
  { injection Hv as ->.
    destruct (text_at_sound _ _ _ _ E1) as (t & Hd & Hm). eauto. }
  destruct (text_at Patterns.major_minor s i) as [v2|] eqn:E2.
  { injection Hv as ->.
    destruct (text_at_sound _ _ _ _ E2) as (t & Hd & Hm). eauto. }
  cbn [or_else] in Hv.
  destruct (text_at_sound _ _ _ _ Hv) as (t & Hd & Hm). eauto.
Qed.

Lemma may_version (r : Re.regex) :
  r = Patterns.major_minor_patch \/ r = Patterns.major_minor
  \/ r = Patterns.date_T ->
  forall c, may r c = true -> version_char c = true.
Proof.
  intros [-> | [-> | ->]] c;
    destruct c as [[] [] [] [] [] [] [] []]; vm_compute; congruence.
Qed.

Lemma all_chars_has_char (f : ascii -> bool) (c : ascii) (s : string) :
  f c = false -> all_chars f s = true -> has_char c s = false.
Proof.
  intros Hc. induction s as [|d s IH]; [reflexivity|]. cbn.
  rewrite andb_true_iff. intros [Hd Hs].
  destruct (Ascii.eqb_spec d c) as [->|_]; [congruence|]. now apply IH.
Qed.

End VersionShape.

(** X6.  The version [main] reads from a file name is a piece of the file
    name that starts with a digit and is made of digits, dots and the
    letter T only; it has no blank and no slash. *)
Theorem version_is_digits_dots_T (fileName v : string) :
  version_of fileName = Some v ->
  (exists i t, Str.drop i fileName = v +:+ t) /\
  (exists c v', v = String c v' /\ Re.cs_mem Patterns.digit c = true) /\
  all_chars version_char v = true /\
  has_char " " v = false /\ has_char "/" v = false.
Proof.
  intros Hv. destruct (version_of_matches _ _ Hv) as (i & t & Hd & Hm).
  assert (all_chars version_char v = true) as Hall.
  { destruct Hm as [Hm|[Hm|Hm]];
      (eapply all_chars_impl; [apply may_version|exact (matches_may _ _ _ _ Hm)]);
      auto. }
  split; [now exists i, t|]. split.
  - destruct Hm as [Hm|[Hm|Hm]]; exact (matches_digits_first _ _ _ _ Hm).
  - repeat split; [exact Hall| |];
      (eapply all_chars_has_char; [|exact Hall]); reflexivity.
Qed.

Lemma version_is_digits_dots_T_witness :
  version_of "archlinux-2024.04.01-x86_64.iso" = Some "2024.04.01" /\
  all_chars version_char "2024.04.01" = true.
Proof.
  assert (version_of "archlinux-2024.04.01-x86_64.iso" = Some "2024.04.01")
    as Hv by (vm_compute; reflexivity).
  split; [exact Hv|].
  exact (proj1 (proj2 (proj2 (version_is_digits_dots_T _ _ Hv)))).
Defined.

(** ** The forced download and what a download leaves alone *)

(** X7.  With [force] set, whatever is at the destination except a
    directory is unlinked first and exactly one request is made, also when
    a file is already there.  After an answer with success the file holds
    the body and nothing of the old content; after a failure status or a
    failed connection nothing is left at the destination: the old file is
    lost. *)
Theorem forced_download_replaces (w : World) (image url : string)
    (st : state) :
  fs st !! image <> Some Directory ->
  let run := download_file w true image url st in
  http_gets (trace (snd run)) = S (http_gets (trace st)) /\
  match http w url None with
  | Responds r =>
      if ok r then
        fst run = Ret (Some (false, Some (downloaded image))) /\
        fs (snd run) !! image
        = Some (Regular (String.concat "" (iter_content r)))
      else
        fst run = Raise (HTTPError (status_code r)) /\
        fs (snd run) !! image = None
  | ConnectionFails =>
      fst run = Raise ConnectionError /\ fs (snd run) !! image = None
  end.
Proof.
  intros Hdir run. subst run.
  rewrite download_file_forced by exact Hdir.
  rewrite download_fetch_cases. cbv zeta.
  assert (fs (with_fs (delete image (fs st)) st) !! image = None) as Hgone
    by apply lookup_delete_eq.
  rewrite Hgone.
  destruct (http w url None) as [r|]; [destruct (ok r)|];
    cbn [fst snd fs trace with_fs logged];
    (split; [apply http_gets_logged_get|]);
    (split; [reflexivity|]).
  - apply lookup_insert_eq.
  - apply lookup_delete_eq.
  - apply lookup_delete_eq.
Qed.

Lemma forced_download_replaces_witness :
  let w := example_world 404 true in
  let st := initial {["a.iso" := Regular "old"]} in
  fs st !! "a.iso" <> Some Directory /\
  fs (snd (download_file w true "a.iso"
             "https://archlinux.cu.be/iso/latest/a.iso" st)) !! "a.iso"
  = None.
Proof.
  intros w st.
  assert (fs st !! "a.iso" <> Some Directory) as Hdir
    by (vm_compute; discriminate).
  split; [exact Hdir|].
  exact (proj2 (proj2 (forced_download_replaces w "a.iso"
                         "https://archlinux.cu.be/iso/latest/a.iso" st Hdir))).
Defined.

(** X8.  Whatever the flag, the world and the outcome, [download_file]
    leaves every path other than the destination as it was, makes at most
    one request, the one for its URL and without a User-Agent, starts no
    process and probes no tool.  Nothing is said of what reaches the
    terminal: the bar [tqdm] draws on standard error is no event of the
    trace. *)
Theorem download_file_touches_only_destination (w : World) (force : bool)
    (image url : string) (st : state) :
  let st' := snd (download_file w force image url st) in
  (forall p, p <> image -> fs st' !! p = fs st !! p) /\
  (exists delta,
     trace st' = trace st ++ delta /\
     (requests_of delta = [] \/ requests_of delta = [(url, None)]) /\
     process_runs delta = 0%nat /\ tool_probes delta = 0%nat) /\
  cp_error st' = cp_error st.
Proof.
  intros st'.
  assert ((forall p, p <> image -> fs st' !! p = fs st !! p) /\
          (trace st' = trace st
           \/ trace st' = trace st ++ [HttpGet url None]) /\
          cp_error st' = cp_error st) as (Hfs & Htr & Hcp).
  { subst st'.
    assert (forall st0,
              (forall p, p <> image -> fs st0 !! p = fs st !! p) ->
              trace st0 = trace st -> cp_error st0 = cp_error st ->
              let st' := snd (download_fetch w image url st0) in
              (forall p, p <> image -> fs st' !! p = fs st !! p) /\
              (trace st' = trace st
               \/ trace st' = trace st ++ [HttpGet url None]) /\
              cp_error st' = cp_error st) as Hfetch.
    { intros st0 Hfs Htr Hcp. rewrite download_fetch_cases. cbv zeta.
      destruct (http w url None) as [r|]; [destruct (ok r)|];
        [destruct (fs st0 !! image) as [[data| |]|]|..];
        cbn [snd fs trace cp_error with_fs logged]; rewrite Htr;
        (split; [|split; [now right|exact Hcp]]); intros p Hp;
        rewrite ?lookup_insert_ne by congruence; now apply Hfs. }
    destruct force.
    - destruct (fs st !! image) as [[data| |]|] eqn:E.
      1,2,4: rewrite download_file_forced by congruence;
        apply Hfetch; [|reflexivity..]; intros p Hp;
        cbn [fs with_fs]; now rewrite lookup_delete_ne by congruence.
      unfold download_file, unlink_missing_ok. run_monad. rewrite E.
      cbn [snd]. auto.
    - destruct (fs st !! image) as [[data| |]|] eqn:E.
      2,3,4: rewrite download_file_absent by congruence;
        now apply Hfetch.
      rewrite (download_file_present _ _ _ _ _ E). cbn. auto. }
  split; [exact Hfs|]. split; [|exact Hcp].
  destruct Htr as [Htr|Htr].
  - exists []. rewrite app_nil_r. repeat split; auto.
  - exists [HttpGet url None]. repeat split; auto.
Qed.

(** ** What a run may do *)

Section EffectFacts.

Lemma http_gets_app (t1 t2 : list event) :
  http_gets (t1 ++ t2) = (http_gets t1 + http_gets t2)%nat.
Proof.
  induction t1 as [|e t1 IH]; [reflexivity|].
  destruct e; cbn; now rewrite IH.
Qed.

Lemma process_runs_app (t1 t2 : list event) :
  process_runs (t1 ++ t2) = (process_runs t1 + process_runs t2)%nat.
Proof.
  induction t1 as [|e t1 IH]; [reflexivity|].
  destruct e; cbn; now rewrite IH.
Qed.

Lemma downloads_app (t1 t2 : list event) :
  downloads (t1 ++ t2) = (downloads t1 + downloads t2)%nat.
Proof.
  induction t1 as [|e t1 IH]; [reflexivity|].
  destruct e as [| ? [?|] | |]; cbn; now rewrite IH.
Qed.

Lemma effect_refl (s : state) : effect 0 0 s s.
Proof.
  exists []. rewrite app_nil_r. cbn. repeat split; auto.
Qed.

Lemma effect_weaken (n k n' k' : nat) (s s' : state) :
  (n <= n')%nat -> (k <= k')%nat -> effect n k s s' -> effect n' k' s s'.
Proof.
  intros Hn Hk (d & Ht & Hg & Hr & Hfs). exists d.
  repeat split; [exact Ht|lia|lia|exact Hfs].
Qed.

Lemma effect_trans (n1 k1 n2 k2 : nat) (s s1 s2 : state) :
  effect n1 k1 s s1 -> effect n2 k2 s1 s2 ->
  effect (n1 + n2) (k1 + k2) s s2.
Proof.
  intros (d1 & Ht1 & Hg1 & Hr1 & Hfs1) (d2 & Ht2 & Hg2 & Hr2 & Hfs2).
  exists (d1 ++ d2).
  rewrite Ht2, Ht1, <- app_assoc, http_gets_app, process_runs_app,
    downloads_app.
  repeat split; [lia|lia|].
  destruct Hfs1 as [Hfs1|Hfs1]; [|right; lia].
  destruct Hfs2 as [Hfs2|Hfs2]; [left; congruence|right; lia].
Qed.

(** One event that is neither a request nor a shell command. *)
Lemma effect_quiet (e : event) (s : state) :
  http_gets [e] = 0%nat -> process_runs [e] = 0%nat ->
  effect 0 0 s (logged e s).
Proof.
  intros Hg Hr. exists [e]. cbn [trace fs logged].
  repeat split; [lia|lia|now left].
Qed.

Lemma has_effect_ret {A} (a : A) : has_effect 0 0 (ret a).
Proof. intros st. apply effect_refl. Qed.

Lemma has_effect_raise {A} (e : exn) : has_effect 0 0 (raise (A := A) e).
Proof. intros st. apply effect_refl. Qed.

Lemma has_effect_weaken {A} (n k n' k' : nat) (m : M A) :
  (n <= n')%nat -> (k <= k')%nat -> has_effect n k m -> has_effect n' k' m.
Proof. intros Hn Hk H st. eapply effect_weaken; eauto. Qed.

Lemma has_effect_bind {A B} (n1 k1 n2 k2 : nat) (m : M A) (f : A -> M B) :
  has_effect n1 k1 m -> (forall a, has_effect n2 k2 (f a)) ->
  has_effect (n1 + n2) (k1 + k2) (bind m f).
Proof.
  intros Hm Hf st. unfold bind. specialize (Hm st).
  destruct (m st) as [[a|e] st1]; cbn [snd] in *.
  - eapply effect_trans; [exact Hm|apply Hf].
  - eapply effect_weaken; [| |exact Hm]; lia.
Qed.

Lemma has_effect_try {A B} (n1 k1 n2 k2 : nat) (m : M A)
    (handler : exn -> option (M B)) (els : A -> M B) :
  has_effect n1 k1 m ->
  (forall e h, handler e = Some h -> has_effect n2 k2 h) ->
  (forall a, has_effect n2 k2 (els a)) ->
  has_effect (n1 + n2) (k1 + k2) (try_except_else m handler els).
Proof.
  intros Hm Hh He st. unfold try_except_else. specialize (Hm st).
  destruct (m st) as [[a|e] st1]; cbn [snd] in *.
  - eapply effect_trans; [exact Hm|apply He].
  - destruct (handler e) as [h|] eqn:E.
    + eapply effect_trans; [exact Hm|now apply (Hh e)].
    + eapply effect_weaken; [| |exact Hm]; lia.
Qed.

Lemma has_effect_for_each {A} (xs : list A) (body : A -> M unit) :
  (forall x, has_effect 0 0 (body x)) -> has_effect 0 0 (for_each xs body).
Proof.
  intros Hb. induction xs as [|x xs IH]; [apply has_effect_ret|].
  cbn [for_each]. now apply (has_effect_bind 0 0 0 0).
Qed.

Lemma has_effect_print (line : string) : has_effect 0 0 (print line).
Proof. intros st. now apply effect_quiet. Qed.

Lemma has_effect_v_error {A} (cp : Verbosity.t) (message : string) :
  has_effect 0 0 (Verbosity.v_error (A := A) cp message).
Proof.
  intros st. rewrite v_error_exits. exists [Printed (Verbosity.error_line message)].
  cbn. repeat split; auto.
Qed.

Lemma has_effect_v_ok (cp : Verbosity.t) (message : string) :
  has_effect 0 0 (Verbosity.v_ok cp message).
Proof.
  unfold Verbosity.v_ok. destruct (0 <? Verbosity.verbose cp)%nat;
    [apply has_effect_print|apply has_effect_ret].
Qed.

Lemma has_effect_v_info (cp : Verbosity.t) (message : string) :
  has_effect 0 0 (Verbosity.v_info cp message).
Proof.
  unfold Verbosity.v_info. destruct (1 <? Verbosity.verbose cp)%nat;
    [apply has_effect_print|apply has_effect_ret].
Qed.

Lemma has_effect_import_packages (w : World) (packages : list string) :
  forall error, has_effect 0 0 (import_packages w packages error).
Proof.
  induction packages as [|p packages IH]; intros error;
    [apply has_effect_ret|].
  cbn [import_packages]. apply (has_effect_bind 0 0 0 0); [|intros; apply IH].
  unfold import_or_install. destruct (importable w p); [apply has_effect_ret|].
  destruct (pip_install w p); [|apply has_effect_ret].
  apply (has_effect_bind 0 0 0 0);
    [apply has_effect_print|intros; apply has_effect_ret].
Qed.

Lemma has_effect_is_tool (w : World) (cp : Verbosity.t) (name : list string) :
  has_effect 0 0 (is_tool w cp name).
Proof.
  unfold is_tool. apply (has_effect_bind 0 0 0 0).
  - intros st. now apply effect_quiet.
  - intros _. destruct (probe w name) as [rc|];
      [destruct (rc =? 0)%Z; [apply has_effect_ret|apply has_effect_raise]
      |apply has_effect_v_error].
Qed.

Lemma has_effect_get_url_paths (w : World) (html : string) (p : pattern) :
  has_effect 1 0 (get_url_paths w html p).
Proof.
  intros st. rewrite get_url_paths_cases. cbv zeta.
  assert (effect 1 0 st
            (logged (HttpGet html (Some (chosen_user_agent w))) st)) as H.
  { eexists [_]. cbn. repeat split; auto. }
  destruct (http w html _) as [r|]; [destruct (ok r)|]; exact H.
Qed.

Lemma has_effect_download_fetch (w : World) (image url : string) :
  has_effect 1 0 (download_fetch w image url).
Proof.
  intros st. rewrite download_fetch_cases. cbv zeta.
  assert (forall f,
            effect 1 0 st (with_fs f (logged (HttpGet url None) st))) as H.
  { intros f. eexists [_]. cbn. repeat split; auto; right; lia. }
  assert (effect 1 0 st (logged (HttpGet url None) st)) as H0.
  { eexists [_]. cbn. repeat split; auto. }
  destruct (http w url None) as [r|]; [destruct (ok r)|];
    [destruct (fs st !! image) as [[data| |]|]|..];
    cbn [snd]; auto.
Qed.

(** The request is logged whatever comes of it. *)
Lemma download_fetch_trace (w : World) (image url : string) (st : state) :
  trace (snd (download_fetch w image url st))
  = trace st ++ [HttpGet url None].
Proof.
  rewrite download_fetch_cases. cbv zeta.
  destruct (http w url None) as [r|]; [destruct (ok r)|];
    [destruct (fs st !! image) as [[data| |]|]|..]; reflexivity.
Qed.

Lemma has_effect_download_file (w : World) (force : bool)
    (image url : string) :
  has_effect 1 0 (download_file w force image url).
Proof.
  intros st. destruct force.
  - destruct (fs st !! image) as [[data| |]|] eqn:E.
    1,2,4: rewrite download_file_forced by congruence;
      exists [HttpGet url None]; rewrite download_fetch_trace;
      cbn; repeat split; auto; right; lia.
    unfold download_file, unlink_missing_ok. run_monad. rewrite E.
    cbn [snd]. eapply effect_weaken; [| |apply effect_refl]; lia.
  - destruct (fs st !! image) as [[data| |]|] eqn:E.
    2,3,4: rewrite download_file_absent by congruence;
      apply has_effect_download_fetch.
    rewrite (download_file_present _ _ _ _ _ E). cbn [snd].
    eapply effect_weaken; [| |apply effect_refl]; lia.
Qed.

Lemma has_effect_subprocess_run (w : World) (cmd : string)
    (timeout : option Z) :
  has_effect 0 1 (subprocess_run w cmd timeout).
Proof.
  intros st. unfold subprocess_run. unfold bind at 1, emit at 1.
  unfold bind at 1, get_fs at 1.
  destruct (shell w cmd timeout _) as [rr f'].
  unfold bind at 1, put_fs at 1.
  assert (effect 0 1 st (with_fs f' (logged (ProcessRun cmd) st))) as H.
  { eexists [_]. cbn. repeat split; auto; right; lia. }
  destruct rr as [rc|]; [destruct (rc =? 0)%Z|]; exact H.
Qed.

Lemma has_effect_provision (w : World) (cp : Verbosity.t)
    (cloud_image size : string) :
  has_effect 0 1 (provision w cp cloud_image size).
Proof.
  intros st. destruct (fs st !! cloud_image) as [[data| |]|] eqn:E.
  3: { unfold provision, unlink_missing_ok. run_monad. rewrite E.
       cbn [snd]. eapply effect_weaken; [| |apply effect_refl]; lia. }
  all: rewrite provision_cases by congruence; cbv zeta;
    destruct (shell w _ _ _) as [rr f'];
    assert (effect 0 1 st
              (with_fs f' (logged
                 (ProcessRun (qemu_img_create cloud_image size)) st))) as H
      by (eexists [_]; cbn; repeat split; auto; right; lia);
    assert (forall m, effect 0 1 st
              (failed m (with_fs f' (logged
                 (ProcessRun (qemu_img_create cloud_image size)) st)))) as Hf
      by (intros m; eexists [_; _]; cbn; rewrite <- app_assoc;
          repeat split; auto; right; lia);
    destruct rr as [rc|]; [destruct (rc =? 0)%Z|]; cbn [snd]; auto;
    destruct (f' !! cloud_image) as [[data'| |]|]; cbn [snd]; auto;
    (eapply effect_weaken;
     [| |eapply effect_trans; [exact H|apply has_effect_v_ok]]); lia.
Qed.

(** The finalizer prints its line at a verbosity above 2 and returns. *)
Lemma finalizer_runs (cp : Verbosity.t) (st : state) :
  Verbosity.__del__ cp st = (Ret tt, extended (finalizer_events cp) st).
Proof.
  unfold Verbosity.__del__, try_except_else, Verbosity.v_debug,
    finalizer_events.
  assert (bool_decide
            (is_Some (Re.re_match Patterns.marker
                        ("Running " +:+ "Verbosity" +:+ " finalizer")))
          = false) as -> by (vm_compute; reflexivity).
  destruct (2 <? Verbosity.verbose cp)%nat; cbn [andb negb].
  - reflexivity.
  - rewrite andb_false_r. unfold ret, extended. rewrite app_nil_r.
    now destruct st.
Qed.

Lemma has_effect_finalizer (cp : Verbosity.t) :
  has_effect 0 0 (Verbosity.__del__ cp).
Proof.
  intros st. rewrite finalizer_runs. exists (finalizer_events cp).
  unfold finalizer_events.
  destruct (2 <? Verbosity.verbose cp)%nat; cbn; repeat split; auto.
Qed.

Lemma has_effect_launch (w : World) (cp : Verbosity.t)
    (memory iso_image cloud_image : string) :
  has_effect 0 1 (launch w cp memory iso_image cloud_image).
Proof.
  unfold launch. apply (has_effect_try 0 1 0 0).
  - destruct (String.eqb (platform w) "win32");
      apply has_effect_subprocess_run.
  - intros e h. destruct (is_Exception e); [|discriminate].
    intros [= <-]. apply has_effect_v_error.
  - intros _. apply has_effect_ret.
Qed.

End EffectFacts.

Section MainEffect.

Ltac stop_with lem :=
  eapply has_effect_weaken; [| |apply lem]; lia.

Lemma main_effect (d : catalog) (w : World) (args : Args) :
  has_effect 2 2 (main d w args).
Proof.
  unfold main.
  apply (has_effect_bind 0 0 2 2);
    [apply has_effect_import_packages|intros error].
  apply (has_effect_bind 0 0 2 2);
    [destruct error; [apply has_effect_raise|apply has_effect_ret]|intros _].
  cbv zeta.
  apply (has_effect_bind 0 0 2 2); [apply has_effect_v_ok|intros _].
  apply (has_effect_bind 0 0 2 2).
  { destruct (arg_list args); [|apply has_effect_ret].
    apply (has_effect_bind 0 0 0 0); [apply has_effect_print|intros _].
    apply (has_effect_bind 0 0 0 0); [|intros _; apply has_effect_raise].
    apply has_effect_for_each. intros x. apply has_effect_print. }
  intros _.
  destruct (registered d _) as [[linux_distro e]|];
    [|stop_with (has_effect_v_error (A := unit))].
  apply (has_effect_bind 0 0 2 2); [apply has_effect_v_info|intros _].
  apply (has_effect_bind 0 0 2 2).
  { apply has_effect_for_each. intros app. apply has_effect_is_tool. }
  intros _.
  apply (has_effect_bind 1 0 1 2);
    [apply has_effect_get_url_paths|intros result].
  destruct result as [result|];
    [|stop_with (has_effect_raise (A := unit))].
  cbv zeta.
  destruct (List.length (filter_links e result) =? 0)%nat;
    [stop_with (has_effect_v_error (A := unit))|].
  destruct (version_of _) as [version_image|];
    [|stop_with (has_effect_raise (A := unit))].
  apply (has_effect_bind 0 0 1 2); [apply has_effect_v_info|intros _].
  apply (has_effect_bind 0 0 1 2); [apply has_effect_v_info|intros _].
  apply (has_effect_bind 0 0 1 2); [apply has_effect_v_info|intros _].
  apply (has_effect_bind 1 0 0 2);
    [apply has_effect_download_file|intros outcome].
  destruct outcome as [[failed_flag message]|];
    [|stop_with (has_effect_raise (A := unit))].
  apply (has_effect_bind 0 0 0 2).
  { destruct failed_flag; [apply has_effect_v_error|apply has_effect_v_ok]. }
  intros _.
  apply (has_effect_bind 0 1 0 1); [apply has_effect_provision|intros _].
  apply (has_effect_bind 0 1 0 0);
    [apply has_effect_launch|intros _; apply has_effect_finalizer].
Qed.

End MainEffect.

(** X9.  Whatever the catalog, the world and the arguments, a run of
    [main] only adds to the trace, and what it adds has at most two HTTP
    requests and at most two shell commands: no stage is tried twice. *)
Theorem main_never_retries (d : catalog) (w : World) (args : Args)
    (st : state) :
  exists delta,
    trace (snd (main d w args st)) = trace st ++ delta /\
    (http_gets delta <= 2)%nat /\ (process_runs delta <= 2)%nat.
Proof.
  destruct (main_effect d w args st) as (delta & Ht & Hg & Hr & _).
  exists delta. auto.
Qed.

(** X10.  A run of [main] that ends before it requests the artifact or
    runs a shell command (an unknown distribution, a missing tool, a failed
    listing fetch, no candidate, no version) leaves the file system as it
    found it. *)
Theorem main_early_exit_keeps_files (d : catalog) (w : World) (args : Args)
    (st : state) :
  exists delta,
    trace (snd (main d w args st)) = trace st ++ delta /\
    (downloads delta = 0%nat -> process_runs delta = 0%nat ->
     fs (snd (main d w args st)) = fs st).
Proof.
  destruct (main_effect d w args st) as (delta & Ht & _ & _ & Hfs).
  exists delta. split; [exact Ht|]. intros Hd Hr.
  destruct Hfs as [Hfs|Hfs]; [exact Hfs|lia].
Qed.

(** ** The start of a run *)

Section StartFacts.

Lemma extended_nil (st : state) : extended [] st = st.
Proof. unfold extended. rewrite app_nil_r. now destruct st. Qed.

Lemma extended_app (d1 d2 : list event) (st : state) :
  extended d2 (extended d1 st) = extended (d1 ++ d2) st.
Proof. unfold extended. cbn. now rewrite app_assoc. Qed.

Lemma for_each_print {A} (f : A -> string) (xs : list A) :
  forall st,
    for_each xs (fun x => print (f x)) st
    = (Ret tt, extended (map (fun x => Printed (f x)) xs) st).
Proof.
  induction xs as [|x xs IH]; intros st.
  - cbn. now rewrite extended_nil.
  - cbn [for_each map]. unfold bind at 1, print at 1, emit.
    rewrite IH. change (logged (Printed (f x)) st)
      with (extended [Printed (f x)] st).
    now rewrite extended_app.
Qed.

Lemma v_ok_events (cp : Verbosity.t) (message : string) (st : state) :
  Verbosity.v_ok cp message st = (Ret tt, extended (ok_events cp message) st).
Proof.
  unfold Verbosity.v_ok, ok_events.
  destruct (0 <? Verbosity.verbose cp)%nat; [reflexivity|].
  now rewrite extended_nil.
Qed.

(** The loop over the packages tries every package and remembers whether
    one failed. *)
Lemma import_packages_cases (w : World) (packages : list string) :
  forall error st,
    import_packages w packages error st
    = (Ret (error || (0 <? List.length (pip_errors w packages))%nat),
       extended (map Printed (pip_errors w packages)) st).
Proof.
  induction packages as [|p packages IH]; intros error st.
  - cbn. now rewrite orb_false_r, extended_nil.
  - cbn [import_packages pip_errors flat_map]. unfold bind at 1.
    unfold import_or_install.
    destruct (importable w p).
    + unfold ret at 1. now rewrite IH.
    + destruct (pip_install w p) as [e|].
      * unfold bind at 1, print at 1, emit, ret at 1. rewrite IH.
        change (logged (Printed e) st) with (extended [Printed e] st).
        rewrite extended_app. cbn [map app List.length Nat.ltb Nat.leb].
        now rewrite orb_true_r.
      * unfold ret at 1. now rewrite IH.
Qed.

End StartFacts.

(** X3.  When some package can be neither imported nor installed, [main]
    still tries every package, prints the text of each failure in the order
    of the packages and then leaves with [sys.exit(1)]: nothing else is
    printed, no tool is probed, no request is made and the file system is
    as it was. *)
Theorem import_failure_exits_with_status_1 (d : catalog) (w : World)
    (args : Args) (st : state) :
  pip_errors w packages_to_import <> [] ->
  main d w args st
  = (Raise (SystemExit 1),
     extended (map Printed (pip_errors w packages_to_import)) st) /\
  status_of (main d w args st) = 1%Z.
Proof.
  intros Herr.
  assert (main d w args st
          = (Raise (SystemExit 1),
             extended (map Printed (pip_errors w packages_to_import)) st))
    as Hmain.
  { unfold main. unfold bind at 1. rewrite import_packages_cases.
    destruct (pip_errors w packages_to_import) as [|e errs];
      [contradiction|].
    reflexivity. }
  split; [exact Hmain|]. now rewrite Hmain.
Qed.

Lemma import_failure_exits_with_status_1_witness :
  let w := {| platform := "linux"; hostname := "host"; localtime := "now";
              script := "build_image.py";
              importable := fun p => negb (String.eqb p "tqdm");
              pip_install := fun _ => Some "pip failed";
              random_choice := 0;
              http := fun _ _ => ConnectionFails;
              probe := fun _ => ProbeNotFound;
              shell := fun _ _ f => (TimesOut, f) |} in
  pip_errors w packages_to_import <> [] /\
  fst (main DISTRO_OS w default_args (initial ∅)) = Raise (SystemExit 1).
Proof.
  intros w.
  assert (pip_errors w packages_to_import <> []) as H
    by (vm_compute; discriminate).
  split; [exact H|].
  now rewrite (proj1 (import_failure_exits_with_status_1 DISTRO_OS w
                        default_args (initial ∅) H)).
Defined.

(** X2.  With [--list] and every package available, [main] prints its
    greeting (at a verbosity above 0), the heading and the keys of the
    catalog in their order, and leaves with [sys.exit(0)], before the value
    of [--distro] is looked at: no tool is probed, no request is made and
    the file system is as it was. *)
Theorem list_prints_the_catalog (d : catalog) (w : World) (args : Args)
    (st : state) :
  pip_errors w packages_to_import = [] ->
  arg_list args = true ->
  main d w args st
  = (Raise (SystemExit 0),
     extended
       (ok_events (cp_of args) (greeting w)
        ++ Printed "Available Linux distributions to choose from:"
        :: map (fun kv => Printed ("  - " +:+ fst kv)) d)
       st).
Proof.
  intros Herr Hlist. unfold main. unfold bind at 1.
  rewrite import_packages_cases, Herr. cbn [map List.length Nat.ltb Nat.leb orb].
  rewrite extended_nil. unfold bind at 1. unfold ret at 1. cbv zeta.
  unfold bind at 1. fold (cp_of args). fold (greeting w).
  rewrite v_ok_events, Hlist.
  unfold bind at 1. unfold bind at 1. unfold print at 1, emit.
  unfold bind at 1. rewrite for_each_print.
  unfold Verbosity.sys_exit, raise.
  change (logged ?e ?s) with (extended [e] s).
  now rewrite !extended_app.
Qed.

Lemma list_prints_the_catalog_witness :
  let args := {| arg_list := true; arg_distro := "nosuch";
                 arg_force := false; arg_size := "3G";
                 arg_verbose := None; arg_memory := inl 2048%Z |} in
  main DISTRO_OS (example_world 200 true) args (initial ∅)
  = (Raise (SystemExit 0),
     extended
       [ Printed "Available Linux distributions to choose from:";
         Printed "  - archlinux"; Printed "  - manjaro" ]
       (initial ∅)).
Proof.
  intros args.
  now rewrite (list_prints_the_catalog DISTRO_OS (example_world 200 true)
                 args (initial ∅) eq_refl eq_refl).
Defined.

(** ** The required applications *)

Section ToolFacts.

Lemma is_tool_cases (w : World) (cp : Verbosity.t) (app : string)
    (st : state) :
  is_tool w cp [app; "--version"] st =
    let st1 := extended (probed [app]) st in
    match probe w [app; "--version"] with
    | ProbeExits rc =>
        if (rc =? 0)%Z then (Ret tt, st1)
        else (Raise (CalledProcessError (app +:+ " --version") rc), st1)
    | ProbeNotFound => (Raise (SystemExit 0), failed (missing_tool app) st1)
    end.
Proof.
  unfold is_tool. cbv zeta. unfold bind at 1, emit at 1.
  destruct (probe w _) as [rc|]; [destruct (rc =? 0)%Z|]; reflexivity.
Qed.

Lemma tools_all_present (w : World) (cp : Verbosity.t) (apps : list string) :
  Forall (fun app => probe w [app; "--version"] = ProbeExits 0) apps ->
  forall st,
    for_each apps (fun app => is_tool w cp [app; "--version"]) st
    = (Ret tt, extended (probed apps) st).
Proof.
  induction 1 as [|app apps Hok _ IH]; intros st.
  - cbn. now rewrite extended_nil.
  - cbn [for_each]. unfold bind at 1. rewrite is_tool_cases, Hok. cbv zeta.
    cbn [Z.eqb]. now rewrite IH, extended_app.
Qed.

Lemma for_each_app {A} (xs ys : list A) (body : A -> M unit) (st : state) :
  for_each (xs ++ ys) body st
  = bind (for_each xs body) (fun _ => for_each ys body) st.
Proof.
  revert st. induction xs as [|x xs IH]; intros st; [reflexivity|].
  cbn [for_each app]. unfold bind.
  destruct (body x st) as [[[]|e] st1]; [|reflexivity].
  rewrite IH. reflexivity.
Qed.

End ToolFacts.

(** X11.  The applications are probed in the order given, and the loop
    stops at the first one that is not there or does not answer with 0.
    After applications that all answer with 0 the loop ends normally with
    one probe for each; a missing one is reported through [v_error], which
    leaves with status 0; one that exits with another status raises
    CalledProcessError, which [is_tool] does not catch.  In both cases the
    applications after it are not probed. *)
Theorem tools_are_probed_in_order (w : World) (cp : Verbosity.t)
    (good : list string) (st : state) :
  Forall (fun app => probe w [app; "--version"] = ProbeExits 0) good ->
  let loop apps :=
    for_each apps (fun app => is_tool w cp [app; "--version"]) st in
  loop good = (Ret tt, extended (probed good) st) /\
  (forall bad rest,
     probe w [bad; "--version"] = ProbeNotFound ->
     loop (good ++ bad :: rest)
     = (Raise (SystemExit 0),
        failed (missing_tool bad) (extended (probed (good ++ [bad])) st))) /\
  (forall bad rest rc,
     probe w [bad; "--version"] = ProbeExits rc -> rc <> 0%Z ->
     loop (good ++ bad :: rest)
     = (Raise (CalledProcessError (bad +:+ " --version") rc),
        extended (probed (good ++ [bad])) st)).
Proof.
  intros Hgood loop. subst loop. cbv beta.
  split; [now apply tools_all_present|]. split.
  - intros bad rest Hbad. rewrite for_each_app. unfold bind at 1.
    rewrite tools_all_present by exact Hgood.
    cbn [for_each]. unfold bind at 1. rewrite is_tool_cases, Hbad. cbv zeta.
    unfold probed. now rewrite extended_app, map_app.
  - intros bad rest rc Hbad Hrc. rewrite for_each_app. unfold bind at 1.
    rewrite tools_all_present by exact Hgood.
    cbn [for_each]. unfold bind at 1. rewrite is_tool_cases, Hbad. cbv zeta.
    destruct (Z.eqb_spec rc 0) as [->|_]; [contradiction|].
    unfold probed. now rewrite extended_app, map_app.
Qed.

Lemma tools_are_probed_in_order_witness :
  let w := {| platform := "linux"; hostname := "host"; localtime := "now";
              script := "build_image.py";
              importable := fun _ => true;
              pip_install := fun _ => None;
              random_choice := 0;
              http := fun _ _ => ConnectionFails;
              probe := fun argv =>
                if String.eqb (hd "" argv) "qemu-img"
                then ProbeExits 0 else ProbeNotFound;
              shell := fun _ _ f => (TimesOut, f) |} in
  let cp := {| Verbosity.force := false; Verbosity.verbose := 0 |} in
  Forall (fun app => probe w [app; "--version"] = ProbeExits 0) ["qemu-img"] /\
  fst (for_each required_applications
         (fun app => is_tool w cp [app; "--version"]) (initial ∅))
  = Raise (SystemExit 0).
Proof.
  intros w cp.
  assert (Forall (fun app => probe w [app; "--version"] = ProbeExits 0)
            ["qemu-img"]) as Hgood by (repeat constructor).
  split; [exact Hgood|].
  destruct (tools_are_probed_in_order w cp ["qemu-img"] (initial ∅) Hgood)
    as (_ & Hmissing & _).
  change required_applications with (["qemu-img"] ++ ["qemu-system-x86_64"]).
  now rewrite (Hmissing "qemu-system-x86_64" [] eq_refl).
Defined.

(** ** The links of a listing page *)

Section LinkFacts.

Lemma dotall_lit (p : string) : Re.dotall (Re.lit p) = Re.lit p.
Proof. induction p as [|c p IH]; [reflexivity|]. cbn. now rewrite IH. Qed.

Lemma groups_lit (p : string) : Re.groups (Re.lit p) = 0%nat.
Proof. induction p as [|c p IH]; [reflexivity|]. cbn. exact IH. Qed.

Lemma drop_add (a b : nat) (s : string) :
  Str.drop (a + b) s = Str.drop b (Str.drop a s).
Proof.
  revert s. induction a as [|a IH]; intros s.
  - now rewrite drop_0.
  - destruct s as [|c s]; [now destruct b|]. cbn [Nat.add].
    rewrite !drop_S. apply IH.
Qed.

Lemma drop_split (i : nat) (s : string) :
  exists pre, s = pre +:+ Str.drop i s.
Proof.
  revert s. induction i as [|i IH]; intros s.
  - exists EmptyString. now rewrite drop_0.
  - destruct s as [|c s]; [now exists EmptyString|].
    destruct (IH s) as [pre Hpre]. exists (String c pre).
    rewrite drop_S, string_app_cons. now f_equal.
Qed.

Lemma prefix_split (p s : string) :
  String.prefix p s = true -> s = p +:+ Str.drop (String.length p) s.
Proof.
  revert s. induction p as [|c p IH]; intros s H.
  - now rewrite drop_0.
  - destruct s as [|c' s]; [discriminate|]. cbn [String.prefix] in H.
    destruct (ascii_dec c c') as [->|]; [|discriminate].
    cbn [String.length]. rewrite drop_S, string_app_cons. f_equal.
    now apply IH.
Qed.

Lemma first_quote_split (s : string) (n : nat) :
  first_quote s = Some n ->
  exists u t,
    s = u +:+ String quote t /\ String.length u = n /\
    has_char quote u = false.
Proof.
  revert n. induction s as [|c s IH]; intros n; [discriminate|].
  cbn [first_quote]. destruct (Ascii.eqb_spec c quote) as [->|Hc].
  - intros [= <-]. now exists EmptyString, s.
  - destruct (first_quote s) as [m|]; [|discriminate]. intros [= <-].
    destruct (IH m eq_refl) as (u & t & -> & Hlen & Hno).
    exists (String c u), t. rewrite string_app_cons. cbn.
    repeat split; [now rewrite Hlen|].
    rewrite Hno. now destruct (Ascii.eqb_spec c quote).
Qed.

End LinkFacts.

Section LazyFacts.

Context {R : Type}.

Lemma prefix_dquote_cons (c : ascii) (s : string) :
  String.prefix Patterns.dquote (String c s) = Ascii.eqb c quote.
Proof.
  cbn [Patterns.dquote String.prefix].
  destruct (ascii_dec "034" c) as [<-|Hc].
  - now destruct s.
  - destruct (Ascii.eqb_spec c quote) as [->|_]; [now destruct Hc|reflexivity].
Qed.

(** A lazy [.*?] under re.S in front of a double quote stops at the first
    double quote. *)
Lemma rep_lazy_first_quote (s : string) :
  forall pos (k : string -> nat -> option R),
    (forall s' p', String.prefix Patterns.dquote s' = false ->
       k s' p' = None) ->
    (forall s' p', (pos <= p')%nat ->
       String.prefix Patterns.dquote s' = true -> k s' p' <> None) ->
    Re.rep_lazy Re.CsAny 0 s pos k
    = match first_quote s with
      | Some n => k (Str.drop n s) (pos + n)%nat
      | None => None
      end.
Proof.
  induction s as [|c s IH]; intros pos k Hno Hyes;
    cbn [Re.rep_lazy Nat.eqb first_quote Re.cs_mem Nat.pred].
  - now rewrite Hno.
  - destruct (Ascii.eqb_spec c quote) as [->|Hc].
    + rewrite drop_0, Nat.add_0_r.
      assert (k (String quote s) pos <> None) as Hk.
      { apply Hyes; [lia|]. rewrite prefix_dquote_cons.
        apply Ascii.eqb_refl. }
      now destruct (k (String quote s) pos).
    + rewrite Hno.
      2: { rewrite prefix_dquote_cons.
           now destruct (Ascii.eqb_spec c quote). }
      rewrite IH; [|exact Hno|intros s' p' Hp; apply Hyes; lia].
      destruct (first_quote s) as [n|]; [|reflexivity]. cbn [fmap option_fmap option_map].
      rewrite drop_S. now replace (pos + S n)%nat with (S pos + n)%nat by lia.
Qed.

End LazyFacts.

Section FindallLinks.

Lemma first_quote_drop (s : string) (n : nat) :
  first_quote s = Some n -> exists t, Str.drop n s = String quote t.
Proof.
  intros H. destruct (first_quote_split _ _ H) as (u & t & -> & <- & _).
  exists t. clear H. induction u as [|c u IH]; [reflexivity|].
  rewrite string_app_cons. cbn [String.length]. now rewrite drop_S.
Qed.

(** One attempt of a link pattern under re.S: the literal, then the text
    up to the first double quote, which is what group 1 takes. *)
Lemma attempt_link (must : bool) (before rest : string) (pos : nat) :
  Re.attempt must (Re.dotall (link_pattern before)) rest pos
  = if String.prefix before rest then
      match first_quote (Str.drop (String.length before) rest) with
      | Some n =>
          Some ((pos + String.length before + n + 1)%nat,
                [(1%nat, ((pos + String.length before)%nat,
                          (pos + String.length before + n)%nat))])
      | None => None
      end
    else None.
Proof.
  unfold Re.attempt, link_pattern. cbn [Re.dotall Re.dotall_cs].
  rewrite !dotall_lit. cbn [Re.matchk]. rewrite matchk_lit.
  destruct (String.prefix before rest); [|reflexivity].
  set (p1 := (pos + String.length before)%nat).
  set (s1 := Str.drop (String.length before) rest).
  rewrite rep_lazy_first_quote.
  - destruct (first_quote s1) as [n|] eqn:E; [|reflexivity].
    destruct (first_quote_drop _ _ E) as [t Ht].
    rewrite matchk_lit, Ht, prefix_dquote_cons, Ascii.eqb_refl.
    change (String.length Patterns.dquote) with 1%nat.
    destruct (Nat.eqb_spec (p1 + n + 1) pos) as [Habs|_];
      [subst p1; lia|].
    now rewrite andb_false_r.
  - intros s' p' Hs'. now rewrite matchk_lit, Hs'.
  - intros s' p' Hp Hs'. rewrite matchk_lit, Hs'.
    change (String.length Patterns.dquote) with 1%nat.
    destruct (Nat.eqb_spec (p' + 1) pos) as [Habs|_];
      [subst p1; lia|].
    now rewrite andb_false_r.
Qed.

Lemma groups_link (before : string) :
  Re.groups (Re.dotall (link_pattern before)) = 1%nat.
Proof.
  unfold link_pattern. cbn [Re.dotall Re.groups].
  now rewrite !dotall_lit, !groups_lit.
Qed.

(** Every text [re.findall] reports for a link pattern stands in the body
    between the literal and the next double quote. *)
Lemma findall_from_links (before body : string) (rest : string) :
  forall pos skip link,
    Str.drop pos body = rest ->
    In link (Re.findall_from (Re.dotall (link_pattern before)) body rest
               pos skip) ->
    has_char quote link = false /\
    Str.within (before +:+ link +:+ Patterns.dquote) body.
Proof.
  induction rest as [|c rest IH]; intros pos skip link Hrest.
  - cbn [Re.findall_from]. destruct skip as [|skip]; [|intros []].
    rewrite attempt_link.
    destruct (String.prefix before EmptyString) eqn:Hp; [|intros []].
    assert (Str.drop (String.length before) EmptyString = EmptyString) as ->
      by now destruct (String.length before).
    intros [].
  - assert (Str.drop (S pos) body = rest) as Hnext.
    { replace (S pos) with (pos + 1)%nat by lia.
      now rewrite drop_add, Hrest. }
    cbn [Re.findall_from]. destruct skip as [|skip]; [|now apply IH].
    rewrite attempt_link.
    destruct (String.prefix before (String c rest)) eqn:Hp; [|now apply IH].
    destruct (first_quote _) as [n|] eqn:E; [|now apply IH].
    destruct (Nat.eqb_spec (pos + String.length before + n + 1) pos)
      as [Habs|_]; [lia|].
    intros [<-|Hin]; [|now apply (IH _ _ _ Hnext Hin)].
    destruct (first_quote_split _ _ E) as (u & t & Hu & Hlen & Hno).
    unfold Re.item. rewrite groups_link. unfold Re.group.
    cbn [snd fst Re.span_of Nat.eqb]. subst n.
    assert (Str.drop (pos + String.length before) body
            = u +:+ String quote t) as Hd
      by now rewrite drop_add, Hrest.
    rewrite (slice_matched _ _ _ _ Hd). split; [exact Hno|].
    destruct (drop_split pos body) as [pre Hpre].
    exists pre, t. rewrite Hpre at 1. rewrite Hrest.
    rewrite (prefix_split _ _ Hp), Hu at 1.
    now rewrite !string_app_assoc.
Qed.

End FindallLinks.

(** ** The links read off a listing page *)

(** X12.  With either pattern of the catalog, every link
    [get_url_paths] returns is the text of the answered page that stands
    between the pattern's literal opening and the next double quote: it
    holds no double quote, and opening, link and closing quote occur
    together in the body. *)
Theorem links_are_quoted_values (w : World) (html : string) (e : entry)
    (st st' : state) (links : list string) (link : string) :
  In e (map snd DISTRO_OS) ->
  get_url_paths w html (url_pattern e) st = (Ret (Some links), st') ->
  In link links ->
  exists r before,
    http w html (Some (chosen_user_agent w)) = Responds r /\
    source (url_pattern e)
      = before +:+ "(.*?)" +:+ Patterns.dquote /\
    has_char quote link = false /\
    Str.within (before +:+ link +:+ Patterns.dquote) (text r).
Proof.
  intros He Hrun Hin. rewrite get_url_paths_cases in Hrun. cbv zeta in Hrun.
  destruct (http w html _) as [r|]; [|discriminate].
  destruct (ok r); [|discriminate].
  injection Hrun as <- _. exists r.
  destruct He as [<-|[<-|[]]].
  - exists ("href=" +:+ Patterns.dquote).
    split; [reflexivity|]. split; [reflexivity|].
    apply (findall_from_links _ (text r) (text r) 0%nat 0%nat link);
      [reflexivity|exact Hin].
  - exists ("<a id=" +:+ Patterns.dquote +:+ "btn-mi" +:+ Patterns.dquote
            +:+ " href=" +:+ Patterns.dquote).
    split; [reflexivity|]. split; [reflexivity|].
    apply (findall_from_links _ (text r) (text r) 0%nat 0%nat link);
      [reflexivity|exact Hin].
Qed.

Lemma links_are_quoted_values_witness :
  let w := example_world 200 true in
  let link := "archlinux-2024.03.01-x86_64.iso" in
  exists r before,
    http w (url archlinux) (Some (chosen_user_agent w)) = Responds r /\
    source (url_pattern archlinux)
      = before +:+ "(.*?)" +:+ Patterns.dquote /\
    has_char quote link = false /\
    Str.within (before +:+ link +:+ Patterns.dquote) (text r).
Proof.
  intros w link.
  apply (links_are_quoted_values w (url archlinux) archlinux
           (initial ∅)
           (snd (get_url_paths w (url archlinux) (url_pattern archlinux)
                   (initial ∅)))
           [ "archlinux-2024.01.01-x86_64.iso";
             "archlinux-2024.03.01-x86_64.iso";
             "archlinux-2024.02.15-x86_64.iso" ]
           link).
  - left. reflexivity.
  - vm_compute. reflexivity.
  - right. left. reflexivity.
Defined.

(** ** Debug messages *)

Section DebugFacts.

Lemma matches_cat_inv (r1 r2 : Re.regex) (pos : nat) (u t : string) :
  matches (Re.Cat r1 r2) pos u t ->
  exists u1 u2,
    u = u1 +:+ u2 /\ matches r1 pos u1 (u2 +:+ t) /\
    matches r2 (pos + String.length u1) u2 t.
Proof. inversion 1; subst. now exists u1, u2. Qed.

Lemma matches_lit (p : string) :
  forall pos t, matches (Re.lit p) pos p t.
Proof.
  induction p as [|c p IH]; intros pos t; cbn [Re.lit]; [constructor|].
  change (String c p) with (String c (EmptyString +:+ p)).
  rewrite <- string_app_cons. constructor; [|apply IH].
  constructor. cbn. apply Ascii.eqb_refl.
Qed.

Lemma matches_lit_inv (p : string) :
  forall pos u t, matches (Re.lit p) pos u t -> u = p.
Proof.
  induction p as [|c p IH]; intros pos u t H; cbn [Re.lit] in H.
  - now inversion H.
  - destruct (matches_cat_inv _ _ _ _ _ H) as (u1 & u2 & -> & H1 & H2).
    inversion H1 as [|cs d ? ? Hd| | | | | | |]; subst.
    cbn in Hd. apply Ascii.eqb_eq in Hd as ->.
    rewrite string_app_cons, string_app_nil_l.
    f_equal. exact (IH _ _ _ H2).
Qed.

Lemma all_in_app (cs : Re.charset) (u v : string) :
  all_in cs (u +:+ v) = all_in cs u && all_in cs v.
Proof. rewrite !all_in_all_chars. apply all_chars_app. Qed.

(** A text between two runs of characters other than the newline is
    found by [.*(text).*]. *)
Lemma around_matches (p a b : string) :
  all_in Re.CsDot a = true ->
  is_Some (Re.re_match
             (Re.Cat (Re.Rep Re.CsDot 0 true)
                (Re.Cat (Re.Grp 1 (Re.lit p)) (Re.Rep Re.CsDot 0 true)))
             (a +:+ p +:+ b)).
Proof.
  intros Ha. rewrite re_match_at_0. apply match_at_occurs.
  exists (a +:+ p +:+ EmptyString), b. split.
  - now rewrite drop_0, !string_app_assoc, string_app_nil_l.
  - constructor; [constructor; [exact Ha|lia]|].
    constructor; [constructor; apply matches_lit|].
    constructor; [reflexivity|cbn; lia].
Qed.

(** A message that carries a marker names START or END. *)
Lemma marker_names_start_or_end (message : string) :
  is_Some (Re.re_match Patterns.marker message) ->
  is_Some (Re.re_match Patterns.start_marker message) \/
  is_Some (Re.re_match Patterns.end_marker message).
Proof.
  rewrite re_match_at_0. intros H.
  apply match_at_occurs in H as (u & t & Hs & Hm). rewrite drop_0 in Hs.
  unfold Patterns.marker in Hm.
  destruct (matches_cat_inv _ _ _ _ _ Hm) as (u1 & u2 & -> & H1 & H2).
  destruct (matches_cat_inv _ _ _ _ _ H2) as (u3 & u4 & -> & H3 & _).
  inversion H3 as [| | | | | |? ? ? ? ? H4|  |]; subst.
  destruct (matches_cat_inv _ _ _ _ _ H4) as (u5 & u6 & -> & Hb & H5).
  destruct (matches_cat_inv _ _ _ _ _ H5) as (u7 & u8 & -> & H6 & _).
  inversion H6 as [| | | | | |? ? ? ? ? H7|  |]; subst.
  inversion H1 as [| |? ? ? ? ? ? Hdot _| | | | | |]; subst.
  assert (all_in Re.CsDot u5 = true) as Hu5.
  { inversion Hb as [|? d ? ? Hd| | | | | | |]; subst.
    cbn in Hd. apply Ascii.eqb_eq in Hd as ->. reflexivity. }
  assert (forall p, u7 = p ->
            is_Some (Re.re_match
              (Re.Cat (Re.Rep Re.CsDot 0 true)
                 (Re.Cat (Re.Grp 1 (Re.lit p)) (Re.Rep Re.CsDot 0 true)))
              ((u1 +:+ (u5 +:+ u7 +:+ u8) +:+ u4) +:+ t))) as Hfound.
  { intros p ->.
    replace ((u1 +:+ (u5 +:+ p +:+ u8) +:+ u4) +:+ t)
      with ((u1 +:+ u5) +:+ p +:+ (u8 +:+ u4 +:+ t))
      by now rewrite !string_app_assoc.
    apply around_matches. now rewrite all_in_app, Hdot, Hu5. }
  inversion H7 as [| | | |? ? ? ? ? Hl|? ? ? ? ? Hr| | |]; subst.
  - left. apply Hfound. exact (matches_lit_inv "START" _ _ _ Hl).
  - right. apply Hfound. exact (matches_lit_inv "END" _ _ _ Hr).
Qed.

End DebugFacts.

(** X13.  [v_debug] prints one line that holds the message, or nothing,
    and never raises.  A message that carries a marker such as
    [[START FUNC.]] is printed exactly when the verbosity is above 3,
    whatever [override] is: such a message names START or END, so one of
    the two inner branches prints it.  Any other message is printed when
    the verbosity is above 2, and with [override] set only above 3. *)
Theorem v_debug_prints_when_shown (self : Verbosity.t) (message : string)
    (override : bool) (st : state) :
  if debug_shown self message override
  then exists line,
         Verbosity.v_debug self message override st
         = (Ret tt, logged (Printed line) st) /\
         Str.within message line
  else Verbosity.v_debug self message override st = (Ret tt, st).
Proof.
  unfold debug_shown, Verbosity.v_debug.
  destruct (bool_decide (is_Some (Re.re_match Patterns.marker message)))
    eqn:Hm.
  - destruct (3 <? Verbosity.verbose self)%nat; [|reflexivity].
    apply bool_decide_eq_true in Hm.
    destruct (bool_decide
                (is_Some (Re.re_match Patterns.start_marker message)))
      eqn:Hs.
    + eexists. split; [reflexivity|].
      exists (Verbosity.lf +:+ Verbosity.severity +:+ Verbosity.pink
              +:+ " "), (" " +:+ Verbosity.reset).
      now rewrite !string_app_assoc.
    + apply bool_decide_eq_false in Hs.
      destruct (marker_names_start_or_end _ Hm) as [H|H]; [contradiction|].
      rewrite (bool_decide_eq_true_2 _ H).
      eexists. split; [reflexivity|].
      exists (Verbosity.severity +:+ Verbosity.pink +:+ " "),
             (" " +:+ Verbosity.reset +:+ Verbosity.lf +:+ Verbosity.lf).
      now rewrite !string_app_assoc.
  - assert (Str.within message
              (Verbosity.severity +:+ Verbosity.pink +:+ Verbosity.reset
               +:+ message)) as Hw.
    { exists (Verbosity.severity +:+ Verbosity.pink +:+ Verbosity.reset),
             EmptyString.
      now rewrite !string_app_assoc, string_app_nil_r. }
    destruct override, (2 <? Verbosity.verbose self)%nat eqn:H2,
      (3 <? Verbosity.verbose self)%nat eqn:H3; cbn [andb negb];
      first [reflexivity|eexists; split; [reflexivity|exact Hw]].
Qed.

(** ** A run that returns *)

Section ReturnFacts.

Lemma bind_Ret {A B} (m : M A) (k : A -> M B) (st st' : state) (y : B) :
  bind m k st = (Ret y, st') ->
  exists x st1, m st = (Ret x, st1) /\ k x st1 = (Ret y, st').
Proof.
  unfold bind. destruct (m st) as [[x|e] st1]; [eauto|discriminate].
Qed.

(** Under [except Exception as e: cp.v_error(e)] a block that returns has
    run its body, then its [else], without an exception. *)
Lemma try_v_error_Ret {A B} (m : M A) (cp : Verbosity.t) (els : A -> M B)
    (st st' : state) (y : B) :
  try_except_else m
    (fun e =>
       if is_Exception e then Some (Verbosity.v_error cp (str_exn e))
       else None)
    els st = (Ret y, st') ->
  exists a st1, m st = (Ret a, st1) /\ els a st1 = (Ret y, st').
Proof.
  unfold try_except_else. destruct (m st) as [[a|e] st1]; [eauto|].
  destruct (is_Exception e); [rewrite v_error_exits|]; discriminate.
Qed.

Lemma subprocess_run_Ret (w : World) (cmd : string) (timeout : option Z)
    (st st' : state) :
  subprocess_run w cmd timeout st = (Ret tt, st') ->
  shell w cmd timeout (fs st) = (Exits 0, fs st') /\
  trace st' = trace st ++ [ProcessRun cmd].
Proof.
  unfold subprocess_run. unfold bind at 1, emit at 1.
  unfold bind at 1, get_fs at 1. cbn [fs logged].
  destruct (shell w cmd timeout (fs st)) as [rr f'].
  unfold bind at 1, put_fs at 1.
  destruct rr as [rc|]; [|discriminate].
  destruct (Z.eqb_spec rc 0) as [->|_]; [|discriminate].
  intros [= <-]. split; reflexivity.
Qed.

(** [provision] returns only with a regular file at the path. *)
Lemma provision_Ret (w : World) (cp : Verbosity.t)
    (cloud_image size : string) (st st' : state) :
  provision w cp cloud_image size st = (Ret tt, st') ->
  exists data, fs st' !! cloud_image = Some (Regular data).
Proof.
  unfold provision. intros H.
  apply bind_Ret in H as (? & s1 & _ & H).
  apply try_v_error_Ret in H as (? & s2 & _ & H).
  apply bind_Ret in H as (present & s3 & Hp & H).
  unfold is_file in Hp. run_monad. injection Hp as <- <-.
  destruct (fs s2 !! cloud_image) as [[data| |]|] eqn:E;
    try (rewrite v_error_exits in H; discriminate).
  rewrite v_ok_events in H. injection H as <-. now exists data.
Qed.

(** [launch] returns only after the command of the host has exited
    with 0. *)
Lemma launch_Ret (w : World) (cp : Verbosity.t)
    (memory iso_image cloud_image : string) (st st' : state) :
  launch w cp memory iso_image cloud_image st = (Ret tt, st') ->
  let cmd := build_command (host_of w) memory iso_image cloud_image in
  shell w cmd None (fs st) = (Exits 0, fs st') /\
  trace st' = trace st ++ [ProcessRun cmd].
Proof.
  unfold launch, host_of. intros H.
  apply try_v_error_Ret in H as ([] & s1 & H & Hr).
  injection Hr as <-.
  destruct (String.eqb (platform w) "win32");
    exact (subprocess_run_Ret _ _ _ _ _ H).
Qed.

Lemma registered_lookup (d : catalog) (o : option string) (name : string)
    (e : entry) :
  registered d o = Some (name, e) -> lookup_distro d name = Some e.
Proof.
  unfold registered. destruct o as [n|]; [|discriminate].
  destruct (lookup_distro d n) as [e'|] eqn:E; [|discriminate].
  now intros [= <- <-].
Qed.

End ReturnFacts.

(** X14.  [main] returns normally only at the end of a full run: there was
    no [--list], every package was available, the distribution is in the
    catalog, the file name of the ISO has a version, the image named after
    distribution and version was a regular file when the emulator was
    started, and the emulator's command line for the host exited with 0.
    That command is the last thing the run did but for the line the
    finalizer of [cp] prints at a verbosity above 2, and it left the file
    system as the run leaves it. *)
Theorem main_returns_only_after_launch (d : catalog) (w : World)
    (args : Args) (st st' : state) :
  main d w args st = (Ret tt, st') ->
  arg_list args = false /\
  pip_errors w packages_to_import = [] /\
  exists name iso_image version_image f data pre,
    is_Some (lookup_distro d name) /\
    version_of iso_image = Some version_image /\
    let cloud_image := cloud_image_name name version_image in
    let cmd := build_command (host_of w) (fmt_memory (arg_memory args))
                 iso_image cloud_image in
    f !! cloud_image = Some (Regular data) /\
    shell w cmd None f = (Exits 0, fs st') /\
    trace st' = pre ++ ProcessRun cmd :: finalizer_events (cp_of args).
Proof.
  unfold main. intros H.
  apply bind_Ret in H as (error & s1 & H1 & H).
  rewrite import_packages_cases in H1.
  remember (pip_errors w packages_to_import) as errs eqn:Herr.
  injection H1 as <- _.
  apply bind_Ret in H as (? & s2 & H2 & H).
  destruct errs as [|perr errs]; [|cbn in H2; discriminate].
  clear H2. cbv zeta in H.
  apply bind_Ret in H as (? & s3 & _ & H).
  apply bind_Ret in H as (? & s4 & Hlist & H).
  assert (arg_list args = false) as Hl.
  { destruct (arg_list args); [|reflexivity].
    apply bind_Ret in Hlist as (? & ? & _ & Hlist).
    apply bind_Ret in Hlist as (? & ? & _ & Hlist). discriminate. }
  split; [exact Hl|]. split; [reflexivity|]. clear Hlist.
  destruct (registered d _) as [[name e]|] eqn:Hreg;
    [|rewrite v_error_exits in H; discriminate].
  apply bind_Ret in H as (? & s5 & _ & H).
  apply bind_Ret in H as (? & s6 & _ & H).
  apply bind_Ret in H as (result & s7 & _ & H).
  destruct result as [result|]; [|discriminate].
  cbv zeta in H.
  destruct (List.length (filter_links e result) =? 0)%nat;
    [rewrite v_error_exits in H; discriminate|].
  set (iso_image := Str.last_segment "/" _) in H.
  destruct (version_of iso_image) as [version_image|] eqn:Hv;
    [|discriminate].
  apply bind_Ret in H as (? & s8 & _ & H).
  apply bind_Ret in H as (? & s9 & _ & H).
  apply bind_Ret in H as (? & s10 & _ & H).
  apply bind_Ret in H as (outcome & s11 & _ & H).
  destruct outcome as [[failed_flag message]|]; [|discriminate].
  apply bind_Ret in H as (? & s12 & _ & H).
  apply bind_Ret in H as ([] & s13 & Hprov & H).
  apply bind_Ret in H as ([] & s14 & Hlaunch & H).
  apply provision_Ret in Hprov as [data Hdata].
  apply launch_Ret in Hlaunch as [Hshell Htrace].
  fold (cp_of args) in H. rewrite finalizer_runs in H. injection H as <-.
  exists name, iso_image, version_image, (fs s13), data, (trace s13).
  split; [rewrite (registered_lookup _ _ _ _ Hreg); now eexists|].
  split; [exact Hv|]. cbv zeta.
  split; [exact Hdata|]. split; [exact Hshell|].
  cbn [trace extended]. rewrite Htrace, <- app_assoc. reflexivity.
Qed.

Lemma main_returns_only_after_launch_witness :
  let w := example_world 200 true in
  let args :=
    {| arg_list := false; arg_distro := "archlinux"; arg_force := false;
       arg_size := "3G"; arg_verbose := Some 3%nat;
       arg_memory := inl 2048%Z |} in
  let st' := snd (main DISTRO_OS w args (initial ∅)) in
  arg_list args = false /\
  pip_errors w packages_to_import = [] /\
  exists name iso_image version_image f data pre,
    is_Some (lookup_distro DISTRO_OS name) /\
    version_of iso_image = Some version_image /\
    let cloud_image := cloud_image_name name version_image in
    let cmd := build_command (host_of w) (fmt_memory (arg_memory args))
                 iso_image cloud_image in
    f !! cloud_image = Some (Regular data) /\
    shell w cmd None f = (Exits 0, fs st') /\
    trace st' = pre ++ ProcessRun cmd :: finalizer_events (cp_of args).
Proof.
  intros w args st'.
  apply (main_returns_only_after_launch DISTRO_OS w args (initial ∅) st').
  vm_compute. reflexivity.
Defined.
